(** * rapyd-sdk: the documentation-driven generator and the client accessor

    A shallow embedding of
    - the extraction script (the second document of [src/core/RapydError.ts]:
      [getTypes], [getTypeTable], [addType], [addErrors], [addRequest],
      [handleReference] and the fetch loop),
    - the emitter [scripts/generate-types-from-references.js]
      ([formatType], [formatInterface], [formatEnum], [generateAPI]),
    - the response accessors of [RapydClient.createResponse]
      ([getHeader], [json], [error], [data]) and the [RapydError] class.

    Conventions of the model.
    - JavaScript strings are [string]s of 8-bit characters: the documentation
      text is taken to be ASCII, so [\w], [\s], [toLowerCase] and
      [toUpperCase] are the ASCII ones.
    - A thrown exception is the [Throw] result; [console.warn] is dropped.
    - Plain objects used as dictionaries ([typeAliases], [fixes],
      [uniqueFields]) are association lists over their own keys: the
      names are taken not to be those of [Object.prototype]. *)

From Stdlib Require Import List String Ascii Bool Arith NArith Lia Permutation.
Import ListNotations.
Local Open Scope string_scope.
Set Warnings "-register-all".

(** ** Results of code that may throw *)

Inductive Exn : Type :=
| TypeError
| SyntaxError
| ErrorMsg (message : string).

Inductive Result (E A : Type) : Type :=
| Ok (a : A)
| Throw (e : E).
Arguments Ok {E A} a.
Arguments Throw {E A} e.

Definition bind {E A B} (r : Result E A) (k : A -> Result E B) : Result E B :=
  match r with
  | Ok a => k a
  | Throw e => Throw e
  end.

Notation "x <- r ;; k" := (bind r (fun x => k))
  (at level 61, r at next level, right associativity).

(** ** Strings, the way the scripts use them *)

Module Str.

Definition code (c : ascii) : nat := nat_of_ascii c.

Definition between (lo hi : nat) (c : ascii) : bool :=
  (lo <=? code c)%nat && (code c <=? hi)%nat.

Definition isDigit : ascii -> bool := between 48 57.
Definition isUpper : ascii -> bool := between 65 90.
Definition isLower : ascii -> bool := between 97 122.

(** [\w] *)
Definition isWord (c : ascii) : bool :=
  isDigit c || isUpper c || isLower c || Ascii.eqb c "_".

(** [\s]: tab, line feed, vertical tab, form feed, carriage return, space *)
Definition isSpace (c : ascii) : bool :=
  between 9 13 c || Ascii.eqb c " ".

Definition lowerChar (c : ascii) : ascii :=
  if isUpper c then ascii_of_nat (code c + 32) else c.

Definition upperChar (c : ascii) : ascii :=
  if isLower c then ascii_of_nat (code c - 32) else c.

Fixpoint map (f : ascii -> ascii) (s : string) : string :=
  match s with
  | EmptyString => EmptyString
  | String c r => String (f c) (map f r)
  end.

Definition toLowerCase : string -> string := map lowerChar.
Definition toUpperCase : string -> string := map upperChar.

(** [s.startsWith(p)] *)
Fixpoint startsWith (s p : string) {struct p} : bool :=
  match p, s with
  | EmptyString, _ => true
  | String a p', String b s' => Ascii.eqb a b && startsWith s' p'
  | String _ _, EmptyString => false
  end.

(** the characters of [s] after its first [n] *)
Fixpoint drop (n : nat) (s : string) : string :=
  match n, s with
  | O, _ => s
  | S k, String _ r => drop k r
  | S _, EmptyString => EmptyString
  end.

Fixpoint take (n : nat) (s : string) : string :=
  match n, s with
  | O, _ => EmptyString
  | S k, String c r => String c (take k r)
  | S _, EmptyString => EmptyString
  end.

(** [s.indexOf(p)], [None] for -1 *)
Fixpoint indexOf (s p : string) : option nat :=
  if startsWith s p then Some 0
  else match s with
       | EmptyString => None
       | String _ r => option_map S (indexOf r p)
       end.

Definition includes (s p : string) : bool :=
  match indexOf s p with Some _ => true | None => false end.

Definition endsWith (s p : string) : bool :=
  (length p <=? length s)%nat && String.eqb (drop (length s - length p) s) p.

(** [s.split(sep)] for a non-empty separator string *)
Fixpoint splitAux (sep : string) (skip : nat) (cur : string) (s : string)
  : list string :=
  match s with
  | EmptyString => [cur]
  | String c r =>
      match skip with
      | S k => splitAux sep k cur r
      | O => if startsWith s sep
             then cur :: splitAux sep (length sep - 1) EmptyString r
             else splitAux sep 0 (cur ++ String c EmptyString) r
      end
  end.

Definition split (s sep : string) : list string :=
  splitAux sep 0 EmptyString s.

(** [s.split(/\s/g)] *)
Fixpoint splitSpaceAux (cur : string) (s : string) : list string :=
  match s with
  | EmptyString => [cur]
  | String c r =>
      if isSpace c then cur :: splitSpaceAux EmptyString r
      else splitSpaceAux (cur ++ String c EmptyString) r
  end.

Definition splitSpace (s : string) : list string := splitSpaceAux EmptyString s.

(** [l.join(sep)] *)
Definition join (sep : string) (l : list string) : string := String.concat sep l.

Fixpoint trimStart (s : string) : string :=
  match s with
  | String c r => if isSpace c then trimStart r else s
  | EmptyString => EmptyString
  end.

Fixpoint trimEnd (s : string) : string :=
  match s with
  | EmptyString => EmptyString
  | String c r =>
      match trimEnd r with
      | EmptyString => if isSpace c then EmptyString else String c EmptyString
      | r' => String c r'
      end
  end.

Definition trim (s : string) : string := trimEnd (trimStart s).

(** [s.replace(p, r)] for a string pattern: the first occurrence only *)
Definition replaceFirst (s p r : string) : string :=
  match indexOf s p with
  | Some i => take i s ++ r ++ drop (i + length p) s
  | None => s
  end.

(** a value used as a condition: the empty string is falsy *)
Definition truthy (s : string) : bool := negb (String.eqb s EmptyString).

End Str.

(** ** Regular expressions

    A pattern is a matcher anchored at the start of its input: it returns
    its captures and the input left after the match.  None of the scripts'
    patterns matches the empty string. *)

Module Re.

Definition Matcher (A : Type) : Type := string -> option (A * string).

Definition ret {A} (a : A) : Matcher A := fun s => Some (a, s).

Definition seq {A B} (m : Matcher A) (k : A -> Matcher B) : Matcher B :=
  fun s => match m s with
           | Some (a, r) => k a r
           | None => None
           end.

(** a literal string *)
Definition lit (p : string) : Matcher unit :=
  fun s => if Str.startsWith s p then Some (tt, Str.drop (length p) s) else None.

(** a literal string, compared under the [i] flag *)
Definition liti (p : string) : Matcher unit :=
  fun s => if Str.startsWith (Str.toLowerCase s) (Str.toLowerCase p)
           then Some (tt, Str.drop (length p) s) else None.

(** [$] *)
Definition eos : Matcher unit :=
  fun s => match s with EmptyString => Some (tt, s) | _ => None end.

(** the longest run of characters of a class, and what follows it *)
Fixpoint span (p : ascii -> bool) (s : string) : string * string :=
  match s with
  | String c r =>
      if p c then let (a, b) := span p r in (String c a, b)
      else (EmptyString, s)
  | EmptyString => (EmptyString, EmptyString)
  end.

(** [c*] for a character class: greedy, and nothing that follows it in the
    scripts' patterns can start with a character of the class, so giving
    characters back never helps *)
Definition many (p : ascii -> bool) : Matcher string :=
  fun s => Some (span p s).

(** [c+] *)
Definition many1 (p : ascii -> bool) : Matcher string :=
  fun s => match span p s with
           | (EmptyString, _) => None
           | (a, r) => Some (a, r)
           end.

(** [a|b]: the alternatives of the scripts' patterns start with different
    characters, so at most one of them matches *)
Definition alt {A} (m1 m2 : Matcher A) : Matcher A :=
  fun s => match m1 s with
           | Some x => Some x
           | None => m2 s
           end.

(** one character of a class *)
Definition one (p : ascii -> bool) : Matcher ascii :=
  fun s => match s with
           | String c r => if p c then Some (c, r) else None
           | EmptyString => None
           end.

(** A scan with the [g] flag: left to right, each match found at the first
    position where the pattern matches, the search resuming after it.
    [skip] counts the characters of the current match still to be passed. *)
Fixpoint scan {A} (m : Matcher A) (skip : nat) (s : string) : list (ascii + A) :=
  match s with
  | EmptyString => []
  | String c r =>
      match skip with
      | S k => scan m k r
      | O =>
          match m s with
          | Some (a, rest) => inr a :: scan m (length s - length rest - 1) r
          | None => inl c :: scan m 0 r
          end
      end
  end.

(** [s.matchAll(re)]: the captures of every match *)
Definition matchAll {A} (m : Matcher A) (s : string) : list A :=
  flat_map (fun t => match t with inr a => [a] | inl _ => [] end) (scan m 0 s).

(** [s.match(re)] without [g]: the first match *)
Definition search {A} (m : Matcher A) (s : string) : option A :=
  hd_error (matchAll m s).

(** [s.replace(re, f)] with the [g] flag *)
Definition replaceAll {A} (m : Matcher A) (f : A -> string) (s : string) : string :=
  String.concat ""
    (List.map (fun t => match t with
                        | inl c => String c EmptyString
                        | inr a => f a
                        end) (scan m 0 s)).

End Re.

(** ** The Type IR

    A node is the object [{ type, arrayTypes?, startsWith?, possibleValues?,
    fields?, id? }]; an absent key is [None].  [TList] is a bare array
    standing where a node is expected, which [formatInterface] builds when
    it merges two fields. *)

Inductive TypeIR : Type :=
| TNode (type : string)
        (arrayTypes : option (list TypeIR))
        (startsWith : option string)
        (possibleValues : option (list string))
        (fields : option (list (string * list TypeIR)))
        (id : option string)
| TList (items : list TypeIR).

(** [{ type: ty }] *)
Definition plain (ty : string) : TypeIR := TNode ty None None None None None.

(** [{ type: 'array', arrayTypes: [{ type: ty }] }] *)
Definition arrayOf (ty : string) : TypeIR :=
  TNode "array" (Some [plain ty]) None None None None.

Definition hasType (ofType : string) (t : TypeIR) : bool :=
  match t with
  | TNode ty _ _ _ _ _ => String.eqb ty ofType
  | TList _ => false
  end.

Definition setStartsWith (prefix : string) (t : TypeIR) : TypeIR :=
  match t with
  | TNode ty arr _ pv fl i => TNode ty arr (Some prefix) pv fl i
  | TList _ => t
  end.

Definition setPossibleValues (vs : list string) (t : TypeIR) : TypeIR :=
  match t with
  | TNode ty arr sw _ fl i => TNode ty arr sw (Some vs) fl i
  | TList _ => t
  end.

Definition setFields (fs : list (string * list TypeIR)) (t : TypeIR) : TypeIR :=
  match t with
  | TNode ty arr sw pv _ i => TNode ty arr sw pv (Some fs) i
  | TList _ => t
  end.

Definition setId (ref : string) (t : TypeIR) : TypeIR :=
  match t with
  | TNode ty arr sw pv fl _ => TNode ty arr sw pv fl (Some ref)
  | TList _ => t
  end.

(** ** Extraction: the Type Inferencer *)

Module Extract.

Definition typeAliases : list (string * string) :=
  [ ("float", "number"); ("Boolean", "boolean");
    ("int", "number"); ("integer", "number") ].

Fixpoint lookup {V} (k : string) (d : list (string * V)) : option V :=
  match d with
  | [] => None
  | (k', v) :: r => if String.eqb k' k then Some v else lookup k r
  end.

(** [typeAliases[typeName] || typeName] *)
Definition alias (typeName : string) : string :=
  match lookup typeName typeAliases with
  | Some a => a
  | None => typeName
  end.

(** the continuation [k] applied to the first ['array'] node of a list *)
Definition firstArray {X} (k : TypeIR -> X) (none : X) : list TypeIR -> X :=
  fix go (l : list TypeIR) : X :=
    match l with
    | [] => none
    | t :: r => if hasType "array" t then k t else go r
    end.

(** [arrayType.arrayTypes && findType(arrayType.arrayTypes, ofType)] *)
Fixpoint findTypeIn (ofType : string) (arrayType : TypeIR) : option TypeIR :=
  match arrayType with
  | TNode _ (Some arrayTypes) _ _ _ _ =>
      match find (hasType ofType) arrayTypes with
      | Some exactMatch => Some exactMatch
      | None => firstArray (findTypeIn ofType) None arrayTypes
      end
  | _ => None
  end.

Definition findType (types : list TypeIR) (ofType : string) : option TypeIR :=
  match find (hasType ofType) types with
  | Some exactMatch => Some exactMatch
  | None => firstArray (findTypeIn ofType) None types
  end.

(** [findType] returns a reference into [types], and [getTypes] assigns to
    the keys of the node it refers to.  [assign types ofType f] is [types]
    after [f] has been applied in place to the node [findType types ofType]
    returns; it is [types] when there is none. *)
Definition updFirst (p : TypeIR -> bool) (f : TypeIR -> TypeIR)
  : list TypeIR -> list TypeIR :=
  fix go (l : list TypeIR) : list TypeIR :=
    match l with
    | [] => []
    | t :: r => if p t then f t :: r else t :: go r
    end.

Fixpoint assignIn (ofType : string) (f : TypeIR -> TypeIR) (arrayType : TypeIR)
  : TypeIR :=
  match arrayType with
  | TNode ty (Some arrayTypes) sw pv fl i =>
      TNode ty
        (Some (if existsb (hasType ofType) arrayTypes
               then updFirst (hasType ofType) f arrayTypes
               else updFirst (hasType "array") (assignIn ofType f) arrayTypes))
        sw pv fl i
  | _ => arrayType
  end.

Definition assign (types : list TypeIR) (ofType : string) (f : TypeIR -> TypeIR)
  : list TypeIR :=
  if existsb (hasType ofType) types
  then updFirst (hasType ofType) f types
  else updFirst (hasType "array") (assignIn ofType f) types.

Definition isSome {X} (o : option X) : bool :=
  match o with Some _ => true | None => false end.

Definition wordOrSpace (c : ascii) : bool := Str.isWord c || Str.isSpace c.
Definition wordOrDash (c : ascii) : bool := Str.isWord c || Ascii.eqb c "-".

Import Re.

(** [/starting with \*\*(\w+)\*\*/] *)
Definition startsWithRe : Matcher string :=
  seq (lit "starting with **") (fun _ =>
  seq (many1 Str.isWord) (fun prefix =>
  seq (lit "**") (fun _ => ret prefix))).

(** [(\\\*|\*|\-)]: a backslash and a star, a star, or a dash *)
Definition bullet : Matcher unit :=
  alt (lit "\*") (alt (lit "*") (lit "-")).

(** [/^(\\\*|\*|\-)\s*\*\*((\w|\s)+)\*\*/], applied to one line *)
Definition valueLineRe : Matcher string :=
  seq bullet (fun _ =>
  seq (many Str.isSpace) (fun _ =>
  seq (lit "**") (fun _ =>
  seq (many1 wordOrSpace) (fun value =>
  seq (lit "**") (fun _ => ret value))))).

(** [/^(\\\*|\*|\-)\s*\`((\w|\s)+)\`/], applied to one line *)
Definition fieldLineRe : Matcher string :=
  seq bullet (fun _ =>
  seq (many Str.isSpace) (fun _ =>
  seq (lit "`") (fun _ =>
  seq (many1 wordOrSpace) (fun value =>
  seq (lit "`") (fun _ => ret value))))).

(** [/see \[((\w|\s)+)\]\(ref\:((\w|-)+)\)/i] *)
Definition objectRefRe : Matcher string :=
  seq (liti "see [") (fun _ =>
  seq (many1 wordOrSpace) (fun _ =>
  seq (liti "](ref:") (fun _ =>
  seq (many1 wordOrDash) (fun ref =>
  seq (lit ")") (fun _ => ret ref))))).

Definition newline : string := String (ascii_of_nat 10) EmptyString.

(** the captures of the lines a line pattern matches, trimmed *)
Definition collectLines (re : Matcher string) (description : string) : list string :=
  flat_map (fun line => match re line with
                        | Some (value, _) => [Str.trim value]
                        | None => []
                        end)
           (Str.split description newline).

(** [rawType.split(' ').pop().replace(/s$/, '')] *)
Definition elementTypeName (rawType : string) : string :=
  let w := last (Str.split rawType " ") EmptyString in
  if Str.endsWith w "s" then Str.take (length w - 1) w else w.

Definition getTypes (rawType description : string) : list TypeIR :=
  let types :=
    if Str.includes rawType "array of" || Str.includes rawType "list of" then
      [arrayOf (alias (elementTypeName rawType))]
    else if Str.includes rawType " or " then
      List.map (fun typeName => plain (alias typeName)) (Str.split rawType " or ")
    else if String.eqb rawType "array_string" then [arrayOf "string"]
    else if String.eqb rawType "array_object" then [arrayOf "object"]
    else [plain (alias rawType)] in
  let stringType := isSome (findType types "string") in
  let objectType := isSome (findType types "object") in
  let types :=
    match search startsWithRe description with
    | Some prefix =>
        if stringType then assign types "string" (setStartsWith prefix) else types
    | None => types
    end in
  let types :=
    if stringType && (Str.includes description "of the following"
                      || Str.includes description "ossible values") then
      match collectLines valueLineRe description with
      | [] => types
      | possibleValues => assign types "string" (setPossibleValues possibleValues)
      end
    else types in
  let types :=
    if objectType && Str.includes description "the following fields" then
      match collectLines fieldLineRe description with
      | [] => types
      | names =>
          assign types "object"
            (setFields (List.map (fun n => (n, [plain "unknown"])) names))
      end
    else types in
  match search objectRefRe description with
  | Some ref => if objectType then assign types "object" (setId ref) else types
  | None => types
  end.

End Extract.

Definition nl : string := Extract.newline.

(** ** The data of the extraction script *)

(** A field of a type or of a request: [{ name, type, required, description }]. *)
Module Field.
Record t : Type := make
  { name : string;
    type : list TypeIR;
    required : bool;
    description : string }.
End Field.

(** A value of an error enum: [{ name, description }]. *)
Module EnumValue.
Record t : Type := make { name : string; description : string }.
End EnumValue.

Inductive Kind : Type := KType | KEnum | KRequest.

Definition Kind_eqb (a b : Kind) : bool :=
  match a, b with
  | KType, KType | KEnum, KEnum | KRequest, KRequest => true
  | _, _ => false
  end.

(** A Reference record, as pushed on [references] and written to
    [references.json]; the keys a kind does not have are [None]. *)
Module Ref.
Record t : Type := make
  { product : string;
    parent : option string;
    id : string;
    type : Kind;
    name : string;
    description : option string;
    fields : option (list Field.t);
    values : option (list EnumValue.t);
    method : option string;
    path : option string;
    params : option (list Field.t);
    body : option (list Field.t);
    headers : option (list Field.t);
    query : option (list Field.t) }.
End Ref.

(** An entry of [reference-fixes.json]: the keys it overrides.  The file is
    not part of the sources; it is a parameter [fixes] of the extraction,
    looked up by slug. *)
Module Patch.
Record t : Type := make
  { product : option string;
    parent : option string;
    id : option string;
    type : option Kind;
    name : option string;
    description : option string;
    fields : option (list Field.t);
    values : option (list EnumValue.t);
    method : option string;
    path : option string;
    params : option (list Field.t);
    body : option (list Field.t);
    headers : option (list Field.t);
    query : option (list Field.t) }.

Definition empty : t :=
  make None None None None None None None None None None None None None None.

Definition over {X} (p : option X) (base : X) : X :=
  match p with Some x => x | None => base end.

Definition overOpt {X} (p : option X) (base : option X) : option X :=
  match p with Some x => Some x | None => base end.

(** [{ ...r, ...fixes[slug] }]: a shallow merge, the patch winning *)
Definition apply (fix_ : option t) (r : Ref.t) : Ref.t :=
  match fix_ with
  | None => r
  | Some p =>
      Ref.make (over (product p) (Ref.product r))
               (overOpt (parent p) (Ref.parent r))
               (over (id p) (Ref.id r))
               (over (type p) (Ref.type r))
               (over (name p) (Ref.name r))
               (overOpt (description p) (Ref.description r))
               (overOpt (fields p) (Ref.fields r))
               (overOpt (values p) (Ref.values r))
               (overOpt (method p) (Ref.method r))
               (overOpt (path p) (Ref.path r))
               (overOpt (params p) (Ref.params r))
               (overOpt (body p) (Ref.body r))
               (overOpt (headers p) (Ref.headers r))
               (overOpt (query p) (Ref.query r))
  end.
End Patch.

Definition Fixes : Type := string -> option Patch.t.

(** A documented parameter of an endpoint: [{ name, in, type, required, desc }]. *)
Module Param.
Record t : Type := make
  { name : string;
    in_ : string;
    type : string;
    required : bool;
    desc : string }.
End Param.

Module Api.
Record t : Type := make
  { url : string;
    method : string;
    params : list Param.t }.
End Api.

(** The JSON of a [[block:parameters]] block: [{ data, rows }].  The keys of
    [data] are ["h-<col>"] for the header row and ["<row>-<col>"] for the
    cells, read here as already split; the entries are in the order of the
    object's keys. *)
Inductive Loc : Type :=
| Header (col : nat)
| Cell (row col : nat).

Module Block.
Record t : Type := make
  { data : list (Loc * string);
    rows : nat }.
End Block.

(** A node of the documentation tree.  [blocks] is what
    [body.matchAll(parametersBlockRegex)] followed by [JSON.parse] gives on
    the node's body, one entry per block: [None] where [JSON.parse] throws. *)
Inductive DocNode : Type := mkNode
  { type : string;
    title : string;
    slug : string;
    excerpt : option string;
    body : string;
    blocks : list (option Block.t);
    api : option Api.t;
    children : option (list DocNode) }.

Definition setTitle (t : string) (n : DocNode) : DocNode :=
  mkNode (type n) t (slug n) (excerpt n) (body n) (blocks n) (api n) (children n).

Module Product.
Record t : Type := make { id : string; urls : list string }.
End Product.

(** ** Extraction: the Reference Extractor

    [references] is the module-level list every [add*] function pushes on;
    it is threaded through the calls, a push appending at its end. *)

Module Extractor.
Import Extract Re.

Definition References : Type := list Ref.t.

Definition push (references : References) (r : Ref.t) : References :=
  (references ++ [r])%list.

(** the pattern of [addErrors]: a name [\w+] between two pairs of stars, a
    line feed, then a description [.{0,}] up to the next line feed; [.] is
    any character but a line terminator *)
Definition notLineTerminator (c : ascii) : bool :=
  negb (Ascii.eqb c (ascii_of_nat 10) || Ascii.eqb c (ascii_of_nat 13)).

Definition errorRe : Matcher EnumValue.t :=
  seq (lit "**") (fun _ =>
  seq (many1 Str.isWord) (fun name =>
  seq (lit "**") (fun _ =>
  seq (lit newline) (fun _ =>
  seq (many notLineTerminator) (fun description =>
  seq (lit newline) (fun _ => ret (EnumValue.make name description))))))).

(** [/(\s|<marker>$)/g] *)
Definition spaceOrFinal (marker : string) : Matcher unit :=
  alt (seq (one Str.isSpace) (fun _ => ret tt))
      (seq (lit marker) (fun _ => eos)).

Definition remove {A} (m : Matcher A) (s : string) : string :=
  replaceAll m (fun _ => EmptyString) s.

Definition addErrors (fixes : Fixes) (product : string) (reference : DocNode)
  (parent : string) (references : References) : References :=
  let errors := matchAll errorRe (body reference) in
  push references
    (Patch.apply (fixes (slug reference))
       (Ref.make product (Some parent) (slug reference) KEnum
          (remove (spaceOrFinal "Errors") (title reference) ++ "Error")
          None None (Some errors) None None None None None None)).

Definition typeTableColumns : list string := ["name"; "type"; "description"].

(** A row of the table while it is filled: the cells written so far. *)
Module Row.
Record t : Type := make
  { name : option string;
    type : option string;
    description : option string }.
Definition empty : t := make None None None.

(** [row[typeTableColumns[col]] = value]; a column past the third writes a
    key that is never read *)
Definition set (col : nat) (value : string) (row : t) : t :=
  match nth_error typeTableColumns col with
  | Some "name" => make (Some value) (type row) (description row)
  | Some "type" => make (name row) (Some value) (description row)
  | Some "description" => make (name row) (type row) (Some value)
  | _ => row
  end.
End Row.

(** [table[row]] on an array with holes: [None] is a hole *)
Definition Table : Type := list (option Row.t).

(** [if (!table[row]) table[row] = {}; table[row][...] = value], the array
    growing when [row] is past its end *)
Fixpoint setCell (row col : nat) (value : string) (table : Table) : Table :=
  let write (o : option Row.t) : option Row.t :=
    Some (Row.set col value (match o with Some r => r | None => Row.empty end)) in
  match row, table with
  | O, [] => [write None]
  | O, o :: rest => write o :: rest
  | S k, [] => None :: setCell k col value []
  | S k, o :: rest => o :: setCell k col value rest
  end.

(** the second loop of [getTypeTable], on one entry of the array *)
Definition finishRow (o : option Row.t) : Result Exn Field.t :=
  match o with
  | Some (Row.make (Some name) (Some type) (Some description)) =>
      Ok (Field.make (remove (lit "`") name) (getTypes type description)
                     true description)
  | _ => Throw TypeError
  end.

Fixpoint mapM {A B} (f : A -> Result Exn B) (l : list A) : Result Exn (list B) :=
  match l with
  | [] => Ok []
  | a :: r => b <- f a ;; bs <- mapM f r ;; Ok (b :: bs)
  end.

Definition getTypeTable (block : Block.t) : Result Exn (list Field.t) :=
  let table :=
    fold_left (fun table entry =>
                 match entry with
                 | (Header _, _) => table
                 | (Cell row col, value) => setCell row col value table
                 end)
              (Block.data block) (repeat None (Block.rows block)) in
  mapM finishRow table.

(** [reference.excerpt || ''] *)
Definition orEmpty (o : option string) : string :=
  match o with Some s => s | None => EmptyString end.

(** only the first block is used: the loop ends on [break] *)
Definition addType (fixes : Fixes) (product : string) (reference : DocNode)
  (references : References) : Result Exn References :=
  match blocks reference with
  | [] => Ok references
  | None :: _ => Throw SyntaxError
  | Some block :: _ =>
      table <- getTypeTable block ;;
      Ok (push references
            (Patch.apply (fixes (slug reference))
               (Ref.make product None (slug reference) KType
                  (remove (spaceOrFinal "Object") (title reference))
                  (Some (orEmpty (excerpt reference)))
                  (Some table) None None None None None None None)))
  end.

Definition getParamsIn (api : Api.t) (type : string) : list Field.t :=
  List.map (fun param =>
              Field.make (Param.name param)
                         (getTypes (Param.type param) (Param.desc param))
                         (Param.required param)
                         (Param.desc param))
    (filter (fun param => String.eqb (Param.in_ param) type) (Api.params api)).

Definition excludeHeaders : list string :=
  [ "access_key"; "salt"; "signature"; "timestamp"; "idempotency";
    "content-type"; "content_type" ].

(** [l.includes(s)] *)
Definition includes (l : list string) (s : string) : bool :=
  existsb (String.eqb s) l.

(** [segment[0].toUpperCase() + segment.substring(1)]; [segment[0]] is
    [undefined] on an empty segment *)
Definition capitalize (segment : string) : Result Exn string :=
  match segment with
  | EmptyString => Throw TypeError
  | String c r => Ok (String (Str.upperChar c) r)
  end.

Definition spaceOrDash : Matcher unit :=
  alt (seq (one Str.isSpace) (fun _ => ret tt)) (lit "-").

Definition requestName (title : string) : Result Exn string :=
  segments <- mapM capitalize (Str.splitSpace title) ;;
  Ok (remove spaceOrDash (Str.join " " segments) ++ "Request").

(** [url.substring(0, url.indexOf('?'))], or [url] without a ['?'] *)
Definition beforeQuery (url : string) : string :=
  match Str.indexOf url "?" with
  | Some queryIndex => Str.take queryIndex url
  | None => url
  end.

(** [/\:(\w+)/g] replaced by ['{$1}'] *)
Definition colonParam : Matcher string :=
  seq (lit ":") (fun _ => many1 Str.isWord).

Definition bracePath (path : string) : string :=
  replaceAll colonParam (fun name => "{" ++ name ++ "}") path.

Definition forceRequired (param : Field.t) : Field.t :=
  Field.make (Field.name param) (Field.type param) true (Field.description param).

Definition keptHeader (header : Field.t) : bool :=
  negb (includes excludeHeaders (Str.toLowerCase (Field.name header))).

Definition addRequest (fixes : Fixes) (product : string) (reference : DocNode)
  (parent : string) (references : References) : Result Exn References :=
  match api reference with
  | None => Throw TypeError
  | Some api =>
      let path := beforeQuery (Api.url api) in
      name <- requestName (title reference) ;;
      Ok (push references
            (Patch.apply (fixes (slug reference))
               (Ref.make product (Some parent) (slug reference) KRequest
                  name
                  (excerpt reference)
                  None None
                  (Some (Str.toUpperCase (Api.method api)))
                  (Some (bracePath path))
                  (Some (List.map forceRequired (getParamsIn api "path")))
                  (Some (getParamsIn api "body"))
                  (Some (filter keptHeader (getParamsIn api "header")))
                  (Some (getParamsIn api "query")))))
  end.

(** [/ - (Collect|Disburse|Wallet|Issuing)/g] *)
Definition productSuffix : Matcher unit :=
  seq (lit " - ") (fun _ =>
  alt (lit "Collect") (alt (lit "Disburse") (alt (lit "Wallet") (lit "Issuing")))).

(** a loop [for (const x of xs) step(x)] over the shared list *)
Definition forEach {A} (step : A -> References -> Result Exn References)
  : list A -> References -> Result Exn References :=
  fix go (xs : list A) (references : References) : Result Exn References :=
    match xs with
    | [] => Ok references
    | x :: rest => references' <- step x references ;; go rest references'
    end.

Fixpoint handleReference (fixes : Fixes) (product : Product.t)
  (reference : DocNode) (parent : option DocNode) (references : References)
  {struct reference} : Result Exn References :=
  let reference := setTitle (remove productSuffix (title reference)) reference in
  if String.eqb (type reference) "basic" then
    if Str.includes (title reference) "Sequence" then Ok references
    else if Str.endsWith (title reference) "Object" then
      references <- addType fixes (Product.id product) reference references ;;
      match children reference with
      | Some cs =>
          forEach (fun child =>
                     handleReference fixes product child (Some reference))
                  cs references
      | None => Ok references
      end
    else if Str.endsWith (title reference) "Errors" then
      match parent with
      | Some p => Ok (addErrors fixes (Product.id product) reference (slug p)
                        references)
      | None => Ok references
      end
    else Ok references
  else if String.eqb (type reference) "endpoint" then
    match parent with
    | Some p => addRequest fixes (Product.id product) reference (slug p) references
    | None => Ok references
    end
  else Ok references.

(** ** Notions used in the statements about requests *)

(** [p] is [url] cut before its first [c]: [p] holds no [c], and is [url]
    itself or is followed in [url] by a [c] *)
Definition cutBefore (c : ascii) (url p : string) : Prop :=
  (forall n, String.get n p <> Some c) /\
  (p = url \/ exists rest, url = p ++ String c rest).

Definition startsWithWord (s : string) : bool :=
  match s with
  | String c _ => Str.isWord c
  | EmptyString => false
  end.

Fixpoint allWord (s : string) : bool :=
  match s with
  | String c r => Str.isWord c && allWord r
  | EmptyString => true
  end.

(** [Braced path out]: [out] is [path] with every colon-style parameter, a
    colon followed by its longest non-empty run of word characters, written
    in braces, and every other character kept *)
Inductive Braced : string -> string -> Prop :=
| Braced_end : Braced "" ""
| Braced_param (name rest out : string) :
    name <> "" -> allWord name = true -> startsWithWord rest = false ->
    Braced rest out ->
    Braced (":" ++ name ++ rest) ("{" ++ name ++ "}" ++ out)
| Braced_char (c : ascii) (rest out : string) :
    c <> ":"%char \/ startsWithWord rest = false ->
    Braced rest out ->
    Braced (String c rest) (String c out).

(** two names that differ at most by the case of their letters *)
Definition sameIgnoringCase (a b : string) : Prop :=
  Str.toLowerCase a = Str.toLowerCase b.

(** a header name of the exclusion list, compared case-insensitively *)
Definition excludedName (name : string) : Prop :=
  exists e, In e excludeHeaders /\ sameIgnoringCase name e.

(** the Reference [addRequest] builds, before the overlay is merged onto it *)
Definition extractedRequest (product : string) (reference : DocNode)
  (parent : string) (a : Api.t) (name : string) : Ref.t :=
  Ref.make product (Some parent) (slug reference) KRequest name
    (excerpt reference) None None
    (Some (Str.toUpperCase (Api.method a)))
    (Some (bracePath (beforeQuery (Api.url a))))
    (Some (List.map forceRequired (getParamsIn a "path")))
    (Some (getParamsIn a "body"))
    (Some (filter keptHeader (getParamsIn a "header")))
    (Some (getParamsIn a "query")).

(** ** Notions used in the statements about [references] *)

(** a step of the extraction that leaves what [references] holds in place,
    and whose pushes do not depend on it *)
Definition appendOnly (step : References -> Result Exn References) : Prop :=
  forall references,
    step references = (new <- step [] ;; Ok (references ++ new)%list).

End Extractor.

(** ** Extraction: the fetch loop

    Every url of every product is fetched concurrently.  What follows the
    two [await]s of a page (the loop over its documents) runs to its end
    without yielding, so a run is determined by the order in which the
    pages arrive: [completion] lists the (product, url) pairs in that
    order.  [web] is the documentation site: the documents of a url, or the
    failure of its fetch.  The artifact is written only when no page threw. *)

Module Run.
Import Extractor.

Definition Job : Type := (Product.t * string)%type.

Definition jobs (products : list Product.t) : list Job :=
  flat_map (fun product => List.map (pair product) (Product.urls product)) products.

Definition page (fixes : Fixes) (product : Product.t) (docs : list DocNode)
  : References -> Result Exn References :=
  forEach (fun reference => handleReference fixes product reference None) docs.

(** what runs when the page of a job has arrived *)
Definition arrive (fixes : Fixes) (web : string -> Result Exn (list DocNode))
  (job : Job) (references : References) : Result Exn References :=
  docs <- web (snd job) ;; page fixes (fst job) docs references.

Definition run (fixes : Fixes) (web : string -> Result Exn (list DocNode))
  (completion : list Job) : Result Exn References :=
  forEach (arrive fixes web) completion [].

(** ** Notions used in the statements about a run *)

(** the slugs of a documentation node and of the nodes below it *)
Fixpoint slugs (n : DocNode) : list string :=
  match n with
  | mkNode _ _ s _ _ _ _ cs =>
      s :: match cs with
           | Some l => flat_map slugs l
           | None => []
           end
  end.

(** the slugs of the documents of the pages that arrive *)
Definition pageSlugs (web : string -> Result Exn (list DocNode)) (job : Job)
  : list string :=
  match web (snd job) with
  | Ok docs => flat_map slugs docs
  | Throw _ => []
  end.

(** [l1] is [l2] with some of its elements left out *)
Inductive Subseq {A : Type} : list A -> list A -> Prop :=
| Subseq_nil : Subseq [] []
| Subseq_skip (x : A) (l1 l2 : list A) : Subseq l1 l2 -> Subseq l1 (x :: l2)
| Subseq_take (x : A) (l1 l2 : list A) : Subseq l1 l2 -> Subseq (x :: l1) (x :: l2).

(** the overlay leaves the ids as extracted *)
Definition keepsIds (fixes : Fixes) : Prop :=
  forall s p, fixes s = Some p -> Patch.id p = None.



End Run.

(** ** Emission *)

(** Node's [path] module and [__dirname], which the emitter only uses to
    name the files it writes and to compute import paths. *)
Class NodePath : Type :=
  { dirname_ : string;
    path_join : list string -> string;
    path_dirname : string -> string;
    path_relative : string -> string -> string }.

Module Emit.
Import Re.

Definition kindName (k : Kind) : string :=
  match k with
  | KType => "type"
  | KEnum => "enum"
  | KRequest => "request"
  end.

(** a key used as a condition: absent and empty strings are falsy *)
Definition truthyStr (o : option string) : option string :=
  match o with
  | Some s => if Str.truthy s then Some s else None
  | None => None
  end.

(** [list.find(reference => reference.id === id)] *)
Definition findById (references : list Ref.t) (id : string) : option Ref.t :=
  find (fun reference => String.eqb (Ref.id reference) id) references.

Section Emitter.
Context {node : NodePath}.

(** [references], loaded from [references.json] *)
Variable references : list Ref.t.

Definition quote (value : string) : string := "'" ++ value ++ "'".

(** the body of the [map] callback of [formatType] *)
Fixpoint formatType1 (type : TypeIR) : string :=
  match type with
  | TNode ty arrayTypes startsWith possibleValues fields id =>
      if String.eqb ty "string" then
        match truthyStr startsWith with
        | Some prefix => "`" ++ prefix ++ "${string}`"
        | None =>
            match possibleValues with
            | Some values => Str.join " | " (List.map quote values)
            | None => "string"
            end
        end
      else if String.eqb ty "object" then
        match fields with
        | Some fs =>
            "{ " ++
            Str.join "; "
              (List.map (fun field : string * list TypeIR =>
                           let (name, type) := field in
                           name ++ ": " ++ Str.join " | " (List.map formatType1 type))
                        fs)
            ++ " }"
        | None =>
            match truthyStr id with
            | Some i =>
                match findById references i with
                | Some reference => "Partial<" ++ Ref.name reference ++ ">"
                | None => "object"
                end
            | None => "object"
            end
        end
      else if String.eqb ty "number" || String.eqb ty "boolean" then ty
      else if String.eqb ty "array" then
        match arrayTypes with
        | Some ts => "(" ++ Str.join " | " (List.map formatType1 ts) ++ ")[]"
        | None => "any[]"
        end
      else "unknown"
  | TList items => Str.join " | " (List.map formatType1 items)
  end.

Definition formatType (types : list TypeIR) : string :=
  Str.join " | " (List.map formatType1 types).

(** [/\\\*/g]: a backslash followed by a star *)
Definition escapedStar : Matcher unit := lit "\*".

Definition getDescription (description : string) : string :=
  "  /**" ++ nl ++
  "   * " ++
  Str.join (nl ++ "   * ")
    (Str.split (replaceAll escapedStar (fun _ => "-") description) nl) ++ nl ++
  "   */" ++ nl.

(** the inner function [next] of [getExternalIds] *)
Fixpoint next (type : TypeIR) : list string :=
  match type with
  | TNode ty arrayTypes _ _ _ id =>
      (match truthyStr id with Some i => [i] | None => [] end ++
       if String.eqb ty "array"
       then match arrayTypes with
            | Some ts => flat_map next ts
            | None => []
            end
       else [])%list
  | TList _ => []
  end.

Definition getExternalIds (types : list TypeIR) : list string :=
  flat_map next types.

Definition generatedRoot : string := path_join [dirname_; "../src/generated"].

(** [reference.type + 's'], where an absent [type] reads as [undefined] *)
Definition kindDir (type : option Kind) : string :=
  match type with
  | Some k => kindName k ++ "s"
  | None => "undefineds"
  end.

Definition getReferencePath (product : string) (type : option Kind) (name : string)
  : string :=
  path_join [generatedRoot; product; kindDir type; name ++ ".ts"].

Definition refPath (reference : Ref.t) : string :=
  getReferencePath (Ref.product reference) (Some (Ref.type reference))
                   (Ref.name reference).

(** a file written by the emitter: its path and its contents *)
Definition Write : Type := (string * string)%type.

Definition writeReference (reference : Ref.t) (contents : string) : Write :=
  (refPath reference, contents).

(** The object [formatInterface] is given: a Reference, or the object
    [generateRequest] builds, which has no [type] key. *)
Record Shape : Type := mkShape
  { s_product : string;
    s_type : option Kind;
    s_name : string;
    s_fields : option (list Field.t) }.

(** the import of one external id, [None] for the [undefined] of an id
    that no Reference has *)
Definition importOf (self : Shape) (id : string) : option string :=
  match findById references id with
  | None => None
  | Some externalReference =>
      let selfReferencePath :=
        getReferencePath (s_product self) (s_type self) (s_name self) in
      let importPath :=
        Str.replaceFirst
          (path_relative (path_dirname selfReferencePath) (refPath externalReference))
          ".ts" "" in
      let importPath :=
        if Str.startsWith importPath "." then importPath else "./" ++ importPath in
      Some ("import { " ++ Ref.name externalReference ++ " } from '" ++
            importPath ++ "';")
  end.

(** [imports] after the first loop *)
Definition importsOf (self : Shape) (fields : list Field.t) : list (option string) :=
  flat_map (fun field => List.map (importOf self) (getExternalIds (Field.type field)))
           fields.

(** [.filter(Boolean)] *)
Definition filterBoolean (l : list (option string)) : list string :=
  flat_map (fun o => match truthyStr o with Some s => [s] | None => [] end) l.

(** [.filter((x, index, l) => l.indexOf(x) === index)] *)
Fixpoint firstOccurrences (seen : list string) (l : list string) : list string :=
  match l with
  | [] => []
  | x :: r =>
      if existsb (String.eqb x) seen then firstOccurrences seen r
      else x :: firstOccurrences (x :: seen) r
  end.

(** [uniqueFields]: an object used as a dictionary from field names to
    fields, its own keys kept in the order of their creation. *)
Definition Dict : Type := list (string * Field.t).

Fixpoint dictSet (k : string) (v : Field.t) (d : Dict) : Dict :=
  match d with
  | [] => [(k, v)]
  | (k', v') :: r =>
      if String.eqb k' k then (k, v) :: r else (k', v') :: dictSet k v r
  end.

(** the object built when [uniqueFields[field.name]] is already there *)
Definition mergeField (existing field : Field.t) : Field.t :=
  Field.make (Field.name field)
             [TList (Field.type existing); TList (Field.type field)]
             (Field.required existing && Field.required field)
             (Field.description existing ++ nl ++ Field.description field).

Definition addField (uniqueFields : Dict) (field : Field.t) : Dict :=
  match Extract.lookup (Field.name field) uniqueFields with
  | Some existing =>
      dictSet (Field.name field) (mergeField existing field) uniqueFields
  | None => dictSet (Field.name field) field uniqueFields
  end.

Definition uniqueFieldsOf (fields : list Field.t) : Dict :=
  fold_left addField fields [].

(** The order of [Object.values]: the keys that are array indices (canonical
    decimal numerals below 2^32 - 1) first, in ascending order, then the
    other keys in the order of their creation. *)
Fixpoint digitsValue (acc : N) (s : string) : option N :=
  match s with
  | EmptyString => Some acc
  | String c r =>
      if Str.isDigit c
      then digitsValue (10 * acc + N.of_nat (Str.code c - 48)) r
      else None
  end.

Definition arrayIndex (k : string) : option N :=
  match k with
  | EmptyString => None
  | String c r =>
      if Ascii.eqb c "0" && negb (String.eqb r EmptyString) then None
      else match digitsValue 0 k with
           | Some n => if (n <? 4294967295)%N then Some n else None
           | None => None
           end
  end.

Fixpoint insertByIndex (e : N * Field.t) (l : list (N * Field.t))
  : list (N * Field.t) :=
  match l with
  | [] => [e]
  | x :: r => if (fst e <=? fst x)%N then e :: l else x :: insertByIndex e r
  end.

Definition indexKeys (d : Dict) : list (N * Field.t) :=
  flat_map (fun kv => match arrayIndex (fst kv) with
                      | Some n => [(n, snd kv)]
                      | None => []
                      end) d.

Definition nameKeys (d : Dict) : list Field.t :=
  flat_map (fun kv => match arrayIndex (fst kv) with
                      | Some _ => []
                      | None => [snd kv]
                      end) d.

Definition values (d : Dict) : list Field.t :=
  (List.map snd (fold_right insertByIndex [] (indexKeys d)) ++ nameKeys d)%list.

(** one property of the interface, with its doc comment *)
Definition property (field : Field.t) : string :=
  (if Str.truthy (Field.description field)
   then getDescription (Field.description field) else "") ++
  "  " ++ Field.name field ++ (if Field.required field then "" else "?") ++
  ": " ++ formatType (Field.type field) ++ ";" ++ nl.

Definition formatInterface (reference : Shape) (isExport : bool)
  : Result Exn string :=
  match s_fields reference with
  | None => Throw TypeError
  | Some fields =>
      let imports := importsOf reference fields in
      Ok ((match imports with
           | [] => ""
           | _ => Str.join nl (firstOccurrences [] (filterBoolean imports))
                  ++ nl ++ nl
           end) ++
          (if isExport then "export " else "") ++
          "interface " ++ s_name reference ++ " {" ++ nl ++
          String.concat "" (List.map property (values (uniqueFieldsOf fields))) ++
          "};" ++ nl)
  end.

Definition shapeOf (reference : Ref.t) : Shape :=
  mkShape (Ref.product reference) (Some (Ref.type reference))
          (Ref.name reference) (Ref.fields reference).

Definition generateType (reference : Ref.t) : Result Exn Write :=
  file <- formatInterface (shapeOf reference) true ;;
  Ok (writeReference reference file).

Definition enumMember (field : EnumValue.t) : string :=
  (if Str.truthy (EnumValue.description field)
   then getDescription (EnumValue.description field) else "") ++
  "  " ++ EnumValue.name field ++ " = '" ++ EnumValue.name field ++ "'," ++ nl.

Definition formatEnum (reference : Ref.t) (isExport : bool) : Result Exn string :=
  match Ref.values reference with
  | None => Throw TypeError
  | Some vs =>
      Ok ((if isExport then "export " else "") ++
          "enum " ++ Ref.name reference ++ " {" ++ nl ++
          String.concat "" (List.map enumMember vs) ++
          "};" ++ nl)
  end.

Definition generateEnum (reference : Ref.t) : Result Exn Write :=
  file <- formatEnum reference true ;;
  Ok (writeReference reference file).

(** spreading a key that is absent throws *)
Definition spread {X} (o : option (list X)) : Result Exn (list X) :=
  match o with
  | Some l => Ok l
  | None => Throw TypeError
  end.

Definition generateRequest (reference : Ref.t) : Result Exn Write :=
  params <- spread (Ref.params reference) ;;
  body <- spread (Ref.body reference) ;;
  query <- spread (Ref.query reference) ;;
  headers <- spread (Ref.headers reference) ;;
  file <- formatInterface
            (mkShape (Ref.product reference) None (Ref.name reference)
                     (Some (params ++ body ++ query ++ headers)%list))
            true ;;
  Ok (writeReference reference file).

(** [/\{(\w+)\}/g] *)
Definition braceParam : Matcher string :=
  seq (lit "{") (fun _ =>
  seq (many1 Str.isWord) (fun param =>
  seq (lit "}") (fun _ => ret param))).

(** [name.replace(/Request$/, '')], then the first letter lower-cased *)
Definition functionNameOf (name : string) : Result Exn string :=
  let functionName :=
    if Str.endsWith name "Request"
    then Str.take (length name - length "Request") name else name in
  match functionName with
  | EmptyString => Throw TypeError
  | String c r => Ok (String (Str.lowerChar c) r)
  end.

Definition must {X} (o : option X) : Result Exn X :=
  match o with
  | Some x => Ok x
  | None => Throw TypeError
  end.

Definition nonEmpty {X} (l : list X) : bool :=
  match l with [] => false | _ => true end.

(** the text [generateAPI] adds to [file] for one request *)
Definition apiFunction (type : Ref.t) (error : option Ref.t) (request : Ref.t)
  : Result Exn string :=
  functionName <- functionNameOf (Ref.name request) ;;
  requestPath <- must (Ref.path request) ;;
  let pathParams := matchAll braceParam requestPath in
  let path := replaceAll braceParam (fun _ => "{}") requestPath in
  query <- must (Ref.query request) ;;
  method <- must (Ref.method request) ;;
  body <- must (Ref.body request) ;;
  let hasMany := (1 <? List.length query)%nat in
  Ok ("export async function " ++ functionName ++ "<R = " ++ Ref.name type ++
      ">(client: RapydClient, request: " ++ Ref.name request ++
      "): Promise<R> {" ++ nl ++
      (if nonEmpty query then
         "  const queryParams = client.queryParams({" ++
         String.concat ""
           (List.map (fun q =>
                        if hasMany
                        then nl ++ "    " ++ Field.name q ++ ": request." ++
                             Field.name q ++ ","
                        else " " ++ Field.name q ++ ": request." ++
                             Field.name q ++ " ")
                     query) ++
         (if hasMany then nl ++ "  " else "") ++
         "});" ++ nl
       else "") ++
      "  const response = await client." ++ Str.toLowerCase method ++
      "('" ++ path ++ "'" ++
      (if nonEmpty query then " + queryParams" else "") ++
      (if nonEmpty pathParams
       then ", " ++ Str.join ", " (List.map (fun param => "request." ++ param)
                                            pathParams)
       else "") ++
      (if nonEmpty body
       then ", {" ++ nl ++
            String.concat ""
              (List.map (fun param => "    " ++ Field.name param ++ ": request." ++
                                      Field.name param ++ "," ++ nl) body) ++
            "  }"
       else "") ++
      ");" ++ nl ++
      "  return await response.data<R, " ++
      (match error with Some e => Ref.name e | None => "Error" end) ++
      ">();" ++ nl ++
      "}" ++ nl ++ nl).

Definition generateAPI (type : Ref.t) (requests : list Ref.t) (error : option Ref.t)
  : Result Exn Write :=
  functions <- Extractor.mapM (apiFunction type error) requests ;;
  Ok (path_join [generatedRoot; Ref.product type; "apis"; Ref.name type ++ ".ts"],
      "import { RapydClient } from '../../../core/RapydClient';" ++ nl ++
      "import { " ++ Ref.name type ++ " } from '../types/" ++ Ref.name type ++
      "';" ++ nl ++
      (match error with
       | Some e => "import { " ++ Ref.name e ++ " } from '../enums/" ++
                   Ref.name e ++ "';" ++ nl
       | None => ""
       end) ++
      String.concat ""
        (List.map (fun request => "import { " ++ Ref.name request ++
                                  " } from '../requests/" ++ Ref.name request ++
                                  "';" ++ nl) requests) ++
      nl ++
      String.concat "" functions).

Definition isChildOf (reference child : Ref.t) : bool :=
  match Ref.parent child with
  | Some p => String.eqb p (Ref.id reference)
  | None => false
  end.

(** the callback of the final [references.map]: the files written for one
    Reference *)
Definition generate (reference : Ref.t) : Result Exn (list Write) :=
  match Ref.type reference with
  | KType =>
      w <- generateType reference ;;
      let children := filter (isChildOf reference) references in
      if nonEmpty children then
        let methods := filter (fun child => Kind_eqb (Ref.type child) KRequest)
                              children in
        let error := find (fun child => Kind_eqb (Ref.type child) KEnum) children in
        a <- generateAPI reference methods error ;;
        Ok [w; a]
      else Ok [w]
  | KEnum => w <- generateEnum reference ;; Ok [w]
  | KRequest => w <- generateRequest reference ;; Ok [w]
  end.

Definition emit : list (Result Exn (list Write)) :=
  List.map generate references.

(** ** Notions used in the statements about [uniqueFields] *)






End Emitter.
End Emit.

(** ** The client: [RapydError] and the accessors of [createResponse] *)

Module Client.

Section Response.

(** the numbers of JavaScript, which the accessors only pass along *)
Variable number : Type.

(** a JavaScript value as [JSON.parse] builds it, and [undefined] *)
Inductive Value : Type :=
| VUndefined
| VNull
| VBool (b : bool)
| VNum (n : number)
| VStr (s : string)
| VArr (items : list Value)
| VObj (properties : list (string * Value)).

(** [JSON.parse]: [None] where it throws a [SyntaxError] *)
Variable JSON_parse : string -> option Value.

(** [String(v)] on the values that are neither a string nor [undefined] *)
Variable ToString : Value -> string.

(** An instance of [class RapydError<T> extends Error].  [super(message)]
    keeps a string as it is, leaves the message empty for [undefined] and
    converts any other value to a string. *)
Record RapydError : Type := mkRapydError
  { message : string;
    code : Value;
    operationId : Value }.

Definition newRapydError (message code operationId : Value) : RapydError :=
  mkRapydError
    (match message with
     | VStr s => s
     | VUndefined => ""
     | v => ToString v
     end)
    code operationId.

Inductive Thrown : Type :=
| Native (e : Exn)
| Rapyd (e : RapydError).

(** [v[key]] for a key that no primitive and no array has of its own:
    reading a property of [undefined] or [null] throws *)
Definition get (v : Value) (key : string) : Result Thrown Value :=
  match v with
  | VUndefined | VNull => Throw (Native TypeError)
  | VObj properties =>
      Ok (match Extract.lookup key properties with
          | Some x => x
          | None => VUndefined
          end)
  | _ => Ok VUndefined
  end.

(** a header of [res.headers]: a string, or an array of strings *)
Inductive HeaderValue : Type :=
| One (value : string)
| Several (values : list string).

(** the [IncomingMessage]: its headers, and the text of its body once the
    stream has been read to its end, or the error the stream ended on *)
Record IncomingMessage : Type := mkMessage
  { headers : list (string * HeaderValue);
    bodyText : Result Thrown string }.

Variable res : IncomingMessage.

Definition getHeader (name : string) : option string :=
  match Extract.lookup (Str.toLowerCase name) (headers res) with
  | None => None
  | Some (One value) => if Str.truthy value then Some value else None
  | Some (Several values) => hd_error values
  end.

Definition contentType : option string := getHeader "Content-Type".

Definition text : Result Thrown string := bodyText res.

Definition json : Result Thrown Value :=
  match contentType with
  | Some ct =>
      if Str.startsWith ct "application/json" then
        txt <- text ;;
        match JSON_parse txt with
        | Some v => Ok v
        | None => Throw (Native SyntaxError)
        end
      else Throw (Native (ErrorMsg "Response is not valid JSON."))
  | None => Throw (Native (ErrorMsg "Response is not valid JSON."))
  end.

Definition isERROR (v : Value) : bool :=
  match v with
  | VStr s => String.eqb s "ERROR"
  | _ => false
  end.

(** [error<E>()]: the error of the payload, [None] for [undefined] *)
Definition error : Result Thrown (option RapydError) :=
  payload <- json ;;
  status <- get payload "status" ;;
  s <- get status "status" ;;
  if isERROR s then
    message <- get status "message" ;;
    error_code <- get status "error_code" ;;
    operation_id <- get status "operation_id" ;;
    Ok (Some (newRapydError message error_code operation_id))
  else Ok None.

(** [data<R, E>()] *)
Definition data : Result Thrown Value :=
  err <- error ;;
  match err with
  | Some e => Throw (Rapyd e)
  | None =>
      payload <- json ;;
      get payload "data"
  end.

End Response.

Arguments VUndefined {number}.
Arguments VNull {number}.
Arguments VBool {number} b.
Arguments VNum {number} n.
Arguments VStr {number} s.
Arguments VArr {number} items.
Arguments VObj {number} properties.
Arguments Native {number} e.
Arguments Rapyd {number} e.
Arguments mkRapydError {number} message code operationId.
Arguments mkMessage {number} headers bodyText.
Arguments get {number} v key.
Arguments newRapydError {number} ToString message code operationId.
Arguments message {number} r.
Arguments code {number} r.
Arguments operationId {number} r.
Arguments getHeader {number} res name.
Arguments contentType {number} res.
Arguments text {number} res.
Arguments json {number} JSON_parse res.
Arguments isERROR {number} v.
Arguments error {number} JSON_parse ToString res.
Arguments data {number} JSON_parse ToString res.

End Client.

(** * Notions used in the further properties *)

(** [type.type]: the tag of a node, absent on a bare array *)
Definition tagOf (t : TypeIR) : option string :=
  match t with
  | TNode ty _ _ _ _ _ => Some ty
  | TList _ => None
  end.

(** the functions [getTypes] applies to the node it found: one of its four
    assignments *)
Inductive Setter : (TypeIR -> TypeIR) -> Prop :=
| Setter_startsWith prefix : Setter (setStartsWith prefix)
| Setter_possibleValues vs : Setter (setPossibleValues vs)
| Setter_fields fs : Setter (setFields fs)
| Setter_id ref : Setter (setId ref).

(** the cells of the rows of a table, row by row from the index [first]:
    the entries ["<row>-0"], ["<row>-1"] and ["<row>-2"] of each row *)
Fixpoint cellsFrom (first : nat) (rows : list (string * string * string))
  : list (Loc * string) :=
  match rows with
  | [] => []
  | (name, type, description) :: rest =>
      (Cell first 0, name) :: (Cell first 1, type) ::
      (Cell first 2, description) :: cellsFrom (S first) rest
  end.

(** an entry of [data] that is a cell, not a header *)
Definition isCell (entry : Loc * string) : bool :=
  match fst entry with
  | Header _ => false
  | Cell _ _ => true
  end.

(** the field [getTypeTable] makes of a row with its three cells *)
Definition fieldOfRow (row : string * string * string) : Field.t :=
  let '(name, type, description) := row in
  Field.make (Extractor.remove (Re.lit "`") name)
             (Extract.getTypes type description) true description.

(** the first loop of [getTypeTable] on one entry *)
Definition fillCell (table : Extractor.Table) (entry : Loc * string) : Extractor.Table :=
  match entry with
  | (Header _, _) => table
  | (Cell row col, value) => Extractor.setCell row col value table
  end.

(** the cells a filled table holds are entries of [data] *)
Definition cellsFromData (data : list (Loc * string)) (table : Extractor.Table)
  : Prop :=
  forall i row,
    nth_error table i = Some (Some row) ->
    (forall v, Extractor.Row.name row = Some v -> In (Cell i 0, v) data) /\
    (forall v, Extractor.Row.type row = Some v -> In (Cell i 1, v) data) /\
    (forall v, Extractor.Row.description row = Some v -> In (Cell i 2, v) data).

(** the characters of a string that satisfy [keep], in their order *)
Fixpoint keepChars (keep : ascii -> bool) (s : string) : string :=
  match s with
  | EmptyString => EmptyString
  | String c r => if keep c then String c (keepChars keep r) else keepChars keep r
  end.

Definition notSpace (c : ascii) : bool := negb (Str.isSpace c).

Definition notSpaceOrDash (c : ascii) : bool :=
  negb (Str.isSpace c || Ascii.eqb c "-").

(** no colon of the path is followed by a word character *)
Fixpoint noColonParam (path : string) : bool :=
  match path with
  | EmptyString => true
  | String c r =>
      negb (Ascii.eqb c ":" && Extractor.startsWithWord r) && noColonParam r
  end.





(** ** The client: [shorthandRequest]

    [get], [post], [put], [patch] and [delete] pass their arguments to
    [shorthandRequest], which fills the [{}] of the path with the first
    values and hands the next one to [request] as the body.  The values
    are of a type [V]; [toText] is their conversion by a template literal,
    and [encodeURIComponent] is the function of the platform. *)

Module Request.
Section Shorthand.

Variable V : Type.
Variable toText : V -> string.
Variable encodeURIComponent : string -> string.

(** [values.shift()]: the first value, [None] for the [undefined] of an
    empty array, and the values left *)
Definition shift (values : list V) : option V * list V :=
  match values with
  | [] => (None, [])
  | v :: rest => (Some v, rest)
  end.

(** [encodeURIComponent(`${value}`)] *)
Definition encoded (value : option V) : string :=
  encodeURIComponent (match value with
                      | Some v => toText v
                      | None => "undefined"
                      end).

(** [path.replace(/\{\}/g, () => ...)]: the callback runs once for each
    match, from left to right, and takes one value each time *)
Fixpoint substitute (tokens : list (ascii + unit)) (values : list V)
  : string * list V :=
  match tokens with
  | [] => (EmptyString, values)
  | inl c :: rest =>
      let (path, left) := substitute rest values in (String c path, left)
  | inr _ :: rest =>
      let (value, values') := shift values in
      let (path, left) := substitute rest values' in
      (encoded value ++ path, left)
  end.

(** the arguments [shorthandRequest] calls [request] with: the method, the
    path and the body, [None] for [undefined] *)
Definition shorthandRequest (method path : string) (pathValuesAndBody : list V)
  : string * string * option V :=
  let (path, pathValuesAndBody) :=
    if Str.includes path "{}"
    then substitute (Re.scan (Re.lit "{}") 0 path) pathValuesAndBody
    else (path, pathValuesAndBody) in
  (method, path, hd_error pathValuesAndBody).

End Shorthand.
End Request.

(** ** Paths in pieces *)

(** A piece of a documented path: literal text, or a parameter written
    with a colon or with braces. *)
Inductive Piece : Type :=
| Lit (text : string)
| Colon (name : string)
| Brace (name : string).

(** the path as the documentation writes it *)
Fixpoint documented (pieces : list Piece) : string :=
  match pieces with
  | [] => ""
  | Lit text :: rest => text ++ documented rest
  | Colon name :: rest => ":" ++ name ++ documented rest
  | Brace name :: rest => "{" ++ name ++ "}" ++ documented rest
  end.

(** the path with every parameter in braces *)
Fixpoint braced (pieces : list Piece) : string :=
  match pieces with
  | [] => ""
  | Lit text :: rest => text ++ braced rest
  | Colon name :: rest | Brace name :: rest => "{" ++ name ++ "}" ++ braced rest
  end.

(** the path with a [{}] for every parameter *)
Fixpoint holes (pieces : list Piece) : string :=
  match pieces with
  | [] => ""
  | Lit text :: rest => text ++ holes rest
  | Colon _ :: rest | Brace _ :: rest => "{}" ++ holes rest
  end.

(** the names of the parameters, in the order of the path *)
Fixpoint names (pieces : list Piece) : list string :=
  match pieces with
  | [] => []
  | Lit _ :: rest => names rest
  | Colon name :: rest | Brace name :: rest => name :: names rest
  end.

(** the path with the values in place of the parameters, in their order *)
Fixpoint filled {V} (encoded : option V -> string) (pieces : list Piece)
  (values : list V) : string :=
  match pieces with
  | [] => ""
  | Lit text :: rest => text ++ filled encoded rest values
  | Colon _ :: rest | Brace _ :: rest =>
      encoded (hd_error values) ++ filled encoded rest (tl values)
  end.

(** no character of the string is in the class *)
Fixpoint noneOf (bad : ascii -> bool) (s : string) : bool :=
  match s with
  | EmptyString => true
  | String c r => negb (bad c) && noneOf bad r
  end.

Definition isColon (c : ascii) : bool := Ascii.eqb c ":".
Definition isOpen (c : ascii) : bool := Ascii.eqb c "{".

Definition nameOK (name : string) : bool :=
  negb (String.eqb name "") && Extractor.allWord name.

(** the literal pieces hold no opening brace *)
Fixpoint plainText (pieces : list Piece) : bool :=
  match pieces with
  | [] => true
  | Lit text :: rest => noneOf isOpen text && plainText rest
  | _ :: rest => plainText rest
  end.

(** the literal pieces hold neither a colon nor an opening brace, the names
    are non-empty words, and a word character does not follow a parameter
    written with a colon *)
Fixpoint wellFormed (pieces : list Piece) : bool :=
  match pieces with
  | [] => true
  | Lit text :: rest =>
      noneOf isColon text && noneOf isOpen text && wellFormed rest
  | Colon name :: rest =>
      nameOK name && negb (Extractor.startsWithWord (documented rest)) &&
      wellFormed rest
  | Brace name :: rest => nameOK name && wellFormed rest
  end.

(** ** The text of an error list

    The body of a node of error codes, as entries between stretches of
    other text: an entry is a name between two pairs of stars on a line of
    its own end, followed by a line of description. *)

Inductive Entry : Type :=
| Gap (text : string)
| Code (name description : string).

Definition entryText (name description : string) : string :=
  "**" ++ name ++ "**" ++ nl ++ description ++ nl.

Fixpoint listed (entries : list Entry) : string :=
  match entries with
  | [] => ""
  | Gap text :: rest => text ++ listed rest
  | Code name description :: rest => entryText name description ++ listed rest
  end.

Fixpoint codes (entries : list Entry) : list EnumValue.t :=
  match entries with
  | [] => []
  | Gap _ :: rest => codes rest
  | Code name description :: rest => EnumValue.make name description :: codes rest
  end.

Definition isStar (c : ascii) : bool := Ascii.eqb c "*".

Definition isLineTerminator (c : ascii) : bool :=
  negb (Extractor.notLineTerminator c).

(** the other text holds no star, a name is a word, and a description is
    one line *)
Fixpoint entriesOK (entries : list Entry) : bool :=
  match entries with
  | [] => true
  | Gap text :: rest => noneOf isStar text && entriesOK rest
  | Code name description :: rest =>
      nameOK name && noneOf isLineTerminator description && entriesOK rest
  end.

(** the entries of the body of [Pages.paymentErrors] *)
Definition paymentEntries : list Entry :=
  [ Code "ERROR_GET_PAYMENT" "The payment was not found. \*Check the token.";
    Gap nl;
    Code "INVALID_AMOUNT" "The amount is not valid." ].

(** * Inputs of the examples *)

(** A stand-in for Node's [path] module, to run the emitter on examples:
    it joins with a slash and does not normalize. *)
Definition stubPath : NodePath :=
  {| dirname_ := "/sdk/scripts";
     path_join := Str.join "/";
     path_dirname := fun p => p;
     path_relative := fun _ to => to |}.

Definition noFixes : Fixes := fun _ => None.

(** Two products with one page each, and a product whose two pages embed
    the same document. *)
Module Pages.

Definition idTable : option Block.t :=
  Some (Block.make [ (Cell 0 0, "id"); (Cell 0 1, "string");
                     (Cell 0 2, "ID of the object.") ] 1).

Definition paymentObject : DocNode :=
  mkNode "basic" "Payment Object" "payment-object" None
    "[block:parameters]...[/block]" [idTable] None None.

Definition walletObject : DocNode :=
  mkNode "basic" "Wallet Object" "wallet-object" None
    "[block:parameters]...[/block]" [idTable] None None.

Definition web (url : string) : Result Exn (list DocNode) :=
  if String.eqb url "https://docs.rapyd.net/collect/reference" then Ok [paymentObject]
  else if String.eqb url "https://docs.rapyd.net/collect/reference/payment"
       then Ok [paymentObject]
  else if String.eqb url "https://docs.rapyd.net/wallet/reference" then Ok [walletObject]
  else Throw (ErrorMsg "request failed").

Definition collect : Product.t :=
  Product.make "collect" ["https://docs.rapyd.net/collect/reference"].

Definition wallet : Product.t :=
  Product.make "wallet" ["https://docs.rapyd.net/wallet/reference"].

Definition products : list Product.t := [collect; wallet].

Definition idField : Field.t :=
  Field.make "id" [plain "string"] true "ID of the object.".

Definition payment : Ref.t :=
  Ref.make "collect" None "payment-object" KType "Payment" (Some "")
    (Some [idField]) None None None None None None None.

Definition walletRef : Ref.t :=
  Ref.make "wallet" None "wallet-object" KType "Wallet" (Some "")
    (Some [idField]) None None None None None None None.

(** an endpoint with a query string in its url, a path parameter documented
    as optional, and the headers of the specification's example *)
Definition listPayments : DocNode :=
  mkNode "endpoint" "List Payments - Collect" "list-payments" (Some "Lists payments.")
    "" []
    (Some (Api.make "/v1/customers/:customer/payments?limit=10" "get"
             [ Param.make "customer" "path" "string" false "ID of the customer.";
               Param.make "limit" "query" "integer" false "Number of results.";
               Param.make "access_key" "header" "string" true "Access key.";
               Param.make "X-Custom" "header" "string" false "A custom header.";
               Param.make "Content-Type" "header" "string" true "The media type." ]))
    None.

Definition xCustom : Field.t :=
  Field.make "X-Custom" [plain "string"] false "A custom header.".

Definition listPaymentsRequest : Ref.t :=
  Ref.make "collect" (Some "payment-object") "list-payments" KRequest
    "ListPaymentsRequest" (Some "Lists payments.") None None (Some "GET")
    (Some "/v1/customers/{customer}/payments")
    (Some [Field.make "customer" [plain "string"] true "ID of the customer."])
    (Some [])
    (Some [xCustom])
    (Some [Field.make "limit" [plain "number"] false "Number of results."]).

(** a node of error codes, as a child of a type *)
Definition paymentErrors : DocNode :=
  mkNode "basic" "Payment Errors - Collect" "payment-errors" None
    ("**ERROR_GET_PAYMENT**" ++ nl ++
     "The payment was not found. \*Check the token." ++ nl ++
     nl ++
     "**INVALID_AMOUNT**" ++ nl ++
     "The amount is not valid." ++ nl)
    [] None None.

Definition paymentErrorsRef : Ref.t :=
  Ref.make "collect" (Some "payment-object") "payment-errors" KEnum
    "PaymentError" None None
    (Some [ EnumValue.make "ERROR_GET_PAYMENT"
              "The payment was not found. \*Check the token.";
            EnumValue.make "INVALID_AMOUNT" "The amount is not valid." ])
    None None None None None None.

Definition paymentErrorFile : string :=
  "export enum PaymentError {" ++ nl ++
  "  /**" ++ nl ++
  "   * The payment was not found. -Check the token." ++ nl ++
  "   */" ++ nl ++
  "  ERROR_GET_PAYMENT = 'ERROR_GET_PAYMENT'," ++ nl ++
  "  /**" ++ nl ++
  "   * The amount is not valid." ++ nl ++
  "   */" ++ nl ++
  "  INVALID_AMOUNT = 'INVALID_AMOUNT'," ++ nl ++
  "};" ++ nl.

Definition paymentApiFile : string :=
  "import { RapydClient } from '../../../core/RapydClient';" ++ nl ++
  "import { Payment } from '../types/Payment';" ++ nl ++
  "import { PaymentError } from '../enums/PaymentError';" ++ nl ++
  "import { ListPaymentsRequest } from '../requests/ListPaymentsRequest';" ++ nl ++
  nl ++
  "export async function listPayments<R = Payment>(client: RapydClient, request: ListPaymentsRequest): Promise<R> {" ++ nl ++
  "  const queryParams = client.queryParams({ limit: request.limit });" ++ nl ++
  "  const response = await client.get('/v1/customers/{}/payments' + queryParams, request.customer);" ++ nl ++
  "  return await response.data<R, PaymentError>();" ++ nl ++
  "}" ++ nl ++ nl.

(** the product whose two pages both embed the document "Payment Object" *)
Definition collectTwoPages : Product.t :=
  Product.make "collect"
    [ "https://docs.rapyd.net/collect/reference";
      "https://docs.rapyd.net/collect/reference/payment" ].

End Pages.

(** An object node whose id no Reference has, bare and with inline fields,
    and a type whose only field refers to it. *)
Module Dangling.

Definition description : string :=
  "Has the following fields:" ++ nl ++ "* `a`" ++ nl ++
  "See [Foo Object](ref:foo-object)".


Definition bare : TypeIR :=
  TNode "object" None None None None (Some "foo-object").

Definition paymentShape : Emit.Shape :=
  Emit.mkShape "collect" (Some KType) "Payment"
    (Some [Field.make "foo" [bare] true ""]).

Definition paymentFile : string :=
  nl ++ nl ++
  "export interface Payment {" ++ nl ++
  "  foo: object;" ++ nl ++
  "};" ++ nl.

End Dangling.

(** A response of the API that reports an error. *)
Module Envelope.

Definition payload : Client.Value nat :=
  Client.VObj
    [ ("status",
       Client.VObj
         [ ("error_code", Client.VStr "ERROR_GET_CUSTOMER");
           ("status", Client.VStr "ERROR");
           ("message", Client.VStr "The customer was not found.");
           ("operation_id", Client.VStr "f6a8f0b2") ]) ].

Definition status : Client.Value nat :=
  Client.VObj
    [ ("error_code", Client.VStr "ERROR_GET_CUSTOMER");
      ("status", Client.VStr "ERROR");
      ("message", Client.VStr "The customer was not found.");
      ("operation_id", Client.VStr "f6a8f0b2") ].

Definition res : Client.IncomingMessage nat :=
  Client.mkMessage
    [("content-type", Client.One "application/json; charset=utf-8")]
    (Ok "{...}").

Definition parse (txt : string) : option (Client.Value nat) := Some payload.

Definition toString (v : Client.Value nat) : string := "".

End Envelope.

(** The end-to-end scenario of the specification. *)
Module Scenario.

(** the endpoint "Get Customer", its [id] documented with the flag
    [declared] *)
Definition getCustomer (declared : bool) : DocNode :=
  mkNode "endpoint" "Get Customer" "get-customer" None "" []
    (Some (Api.make "/customers/:id" "GET"
             [Param.make "id" "path" "string" declared "ID of the customer."]))
    None.

(** the node "Customer Object", its body holding one parameters block *)
Definition customerObject (declared : bool) : DocNode :=
  mkNode "basic" "Customer Object" "customer-object" None
    "[block:parameters]...[/block]"
    [Some (Block.make
             [ (Header 0, "Field"); (Header 1, "Type"); (Header 2, "Description");
               (Cell 0 0, "id"); (Cell 0 1, "string");
               (Cell 0 2, "starting with **cus_**") ]
             1)]
    None
    (Some [getCustomer declared]).

Definition customer (product : string) : Ref.t :=
  Ref.make product None "customer-object" KType "Customer" (Some "")
    (Some [Field.make "id" [TNode "string" None (Some "cus_") None None None]
                      true "starting with **cus_**"])
    None None None None None None None.

Definition request (product : string) : Ref.t :=
  Ref.make product (Some "customer-object") "get-customer" KRequest
    "GetCustomerRequest" None None None (Some "GET") (Some "/customers/{id}")
    (Some [Field.make "id" [plain "string"] true "ID of the customer."])
    (Some []) (Some []) (Some []).

Definition customerFile : string :=
  "export interface Customer {" ++ nl ++
  "  /**" ++ nl ++
  "   * starting with **cus_**" ++ nl ++
  "   */" ++ nl ++
  "  id: `cus_${string}`;" ++ nl ++
  "};" ++ nl.

Definition requestFile : string :=
  "export interface GetCustomerRequest {" ++ nl ++
  "  /**" ++ nl ++
  "   * ID of the customer." ++ nl ++
  "   */" ++ nl ++
  "  id: string;" ++ nl ++
  "};" ++ nl.

Definition apiFile : string :=
  "import { RapydClient } from '../../../core/RapydClient';" ++ nl ++
  "import { Customer } from '../types/Customer';" ++ nl ++
  "import { GetCustomerRequest } from '../requests/GetCustomerRequest';" ++ nl ++
  nl ++
  "export async function getCustomer<R = Customer>(client: RapydClient, request: GetCustomerRequest): Promise<R> {" ++ nl ++
  "  const response = await client.get('/customers/{}', request.id);" ++ nl ++
  "  return await response.data<R, Error>();" ++ nl ++
  "}" ++ nl ++ nl.

End Scenario.

(** a stand-in for [encodeURIComponent], to run the client on examples: it
    only escapes the space *)
Fixpoint stubEncode (s : string) : string :=
  match s with
  | EmptyString => EmptyString
  | String c r =>
      if Ascii.eqb c " " then "%20" ++ stubEncode r else String c (stubEncode r)
  end.

(** the pieces of a documented path that uses both styles of parameter *)
Definition paymentPieces : list Piece :=
  [Lit "/v1/customers/"; Colon "customer"; Lit "/payments/"; Brace "payment"].

(** a response whose payload is the data alone, without a status *)
Module Unwrapped.

Definition payload : Client.Value nat :=
  Client.VObj [("data", Client.VObj [("id", Client.VStr "cus_1")])].

Definition res : Client.IncomingMessage nat :=
  Client.mkMessage [("content-type", Client.One "application/json")] (Ok "{...}").

Definition parse (txt : string) : option (Client.Value nat) := Some payload.

End Unwrapped.

(** a response whose payload carries a status of success and the data *)
Module Wrapped.

Definition customer : Client.Value nat :=
  Client.VObj [("id", Client.VStr "cus_1")].

Definition payload : Client.Value nat :=
  Client.VObj
    [ ("status", Client.VObj [("status", Client.VStr "SUCCESS")]);
      ("data", customer) ].

Definition res : Client.IncomingMessage nat :=
  Client.mkMessage [("content-type", Client.One "application/json")] (Ok "{...}").

Definition parse (txt : string) : option (Client.Value nat) := Some payload.

End Wrapped.

(** * Properties *)

(** ** The Type Inferencer on the inputs of the specification *)

Example getTypes_array_of_strings :
  Extract.getTypes "array of strings" "any text" = [arrayOf "string"].
Proof. reflexivity. Qed.

Example getTypes_union :
  Extract.getTypes "string or integer" "" = [plain "string"; plain "number"].
Proof. reflexivity. Qed.

Example getTypes_prefix :
  Extract.getTypes "string" "ID of the customer, starting with **cus_**." =
  [TNode "string" None (Some "cus_") None None None].
Proof. reflexivity. Qed.

Example getTypes_prefix_in_array :
  Extract.getTypes "array of strings" "Tokens starting with **card_**" =
  [TNode "array" (Some [TNode "string" None (Some "card_") None None None])
         None None None None].
Proof. reflexivity. Qed.

Example getTypes_fields_and_ref :
  Extract.getTypes "object"
    ("Has the following fields:" ++ nl ++ "* `a`" ++ nl ++
     "See [Foo Object](ref:foo-object)") =
  [TNode "object" None None None (Some [("a", [plain "unknown"])])
         (Some "foo-object")].
Proof. reflexivity. Qed.

(** ** The node [findType] refers to *)

Section FindType.
Import Extract.

(** induction on a Type IR node, the element types of an array taken
    together *)
Lemma TypeIR_array_ind (P : TypeIR -> Prop) :
  (forall items, P (TList items)) ->
  (forall ty sw pv fl i, P (TNode ty None sw pv fl i)) ->
  (forall ty arr sw pv fl i, Forall P arr -> P (TNode ty (Some arr) sw pv fl i)) ->
  forall t, P t.
Proof.
  intros HL HN HA. fix IH 1. intros [ty [arr|] sw pv fl i | items].
  - apply HA. induction arr as [|t arr IHarr]; constructor; [apply IH | exact IHarr].
  - apply HN.
  - apply HL.
Qed.

Variable ofType : string.
Variable f : TypeIR -> TypeIR.
Hypothesis f_type : forall ty t, hasType ty (f t) = hasType ty t.

Lemma hasType_assignIn (ty : string) (t : TypeIR) :
  hasType ty (assignIn ofType f t) = hasType ty t.
Proof. destruct t as [? [?|] ? ? ? ?|]; reflexivity. Qed.

Lemma find_updFirst_same (l : list TypeIR) :
  find (hasType ofType) (updFirst (hasType ofType) f l) =
  option_map f (find (hasType ofType) l).
Proof.
  induction l as [|t l IH]; simpl; [reflexivity|].
  destruct (hasType ofType t) eqn:E; simpl.
  - now rewrite f_type, E.
  - now rewrite E.
Qed.

Lemma find_updFirst_other (p : TypeIR -> bool) (g : TypeIR -> TypeIR)
  (l : list TypeIR) :
  (forall t, hasType ofType (g t) = hasType ofType t) ->
  find (hasType ofType) l = None ->
  find (hasType ofType) (updFirst p g l) = None.
Proof.
  intros Hg. induction l as [|t l IH]; simpl; [reflexivity|].
  destruct (hasType ofType t) eqn:E; [discriminate|]. intros H.
  destruct (p t); simpl.
  - now rewrite Hg, E.
  - rewrite E. now apply IH.
Qed.

Lemma existsb_find (l : list TypeIR) :
  existsb (hasType ofType) l =
  match find (hasType ofType) l with Some _ => true | None => false end.
Proof.
  induction l as [|t l IH]; simpl; [reflexivity|].
  now destruct (hasType ofType t).
Qed.

(** the step from the element types of an array to the array *)
Lemma findType_assign_list (l : list TypeIR) :
  Forall (fun t => findTypeIn ofType (assignIn ofType f t) =
                   option_map f (findTypeIn ofType t)) l ->
  findType (assign l ofType f) ofType = option_map f (findType l ofType).
Proof.
  intros H. unfold findType, assign. rewrite existsb_find.
  destruct (find (hasType ofType) l) as [e|] eqn:E.
  - now rewrite find_updFirst_same, E.
  - rewrite find_updFirst_other by (exact (hasType_assignIn ofType) || exact E).
    clear E. induction H as [|t l Ht _ IH]; simpl; [reflexivity|].
    destruct (hasType "array" t) eqn:Ea; simpl.
    + now rewrite hasType_assignIn, Ea.
    + now rewrite Ea.
Qed.

Lemma findTypeIn_assignIn (t : TypeIR) :
  findTypeIn ofType (assignIn ofType f t) = option_map f (findTypeIn ofType t).
Proof.
  induction t as [items | ty sw pv fl i | ty arr sw pv fl i IH]
    using TypeIR_array_ind; try reflexivity.
  apply (findType_assign_list arr IH).
Qed.

(** [assign] changes the node that [findType] returns, and [findType]
    returns the changed node afterwards *)
Lemma findType_assign (types : list TypeIR) :
  findType (assign types ofType f) ofType = option_map f (findType types ofType).
Proof.
  apply findType_assign_list, Forall_forall. intros t _.
  apply findTypeIn_assignIn.
Qed.

End FindType.

(** C7. Literal-union extraction: for the raw type "string" and the
    description "One of the following:\n- **active**\n- **closed**",
    [getTypes] returns a single string node whose [possibleValues] is
    ["active"; "closed"], in that order, and which has no other key. *)
Theorem getTypes_literal_union :
  Extract.getTypes "string"
    ("One of the following:" ++ nl ++ "- **active**" ++ nl ++ "- **closed**") =
  [TNode "string" None None (Some ["active"; "closed"]) None None].
Proof. vm_compute. reflexivity. Qed.

Example errors_extracted :
  Extractor.handleReference noFixes Pages.collect Pages.paymentErrors
    (Some Pages.paymentObject) [] = Ok [Pages.paymentErrorsRef].
Proof. vm_compute. reflexivity. Qed.

Example errors_without_parent :
  Extractor.handleReference noFixes Pages.collect Pages.paymentErrors None []
  = Ok [].
Proof. vm_compute. reflexivity. Qed.

Example enum_emitted :
  forall node : NodePath,
    Emit.generateEnum Pages.paymentErrorsRef =
    Ok (Emit.refPath Pages.paymentErrorsRef, Pages.paymentErrorFile).
Proof. intros node. vm_compute. reflexivity. Qed.

Example api_with_error_enum :
  forall node : NodePath,
    Emit.generateAPI Pages.payment [Pages.listPaymentsRequest]
      (Some Pages.paymentErrorsRef) =
    Ok (path_join [Emit.generatedRoot; "collect"; "apis"; "Payment.ts"],
        Pages.paymentApiFile).
Proof. intros node. vm_compute. reflexivity. Qed.

(** a title with two spaces in a row has an empty segment *)
Example requestName_empty_segment :
  Extractor.requestName "Get  Customer" = Throw TypeError.
Proof. reflexivity. Qed.

Example requestName_hyphen :
  Extractor.requestName "list e-wallet contacts" = Ok "ListEwalletContactsRequest".
Proof. reflexivity. Qed.

(** C1. End-to-end scenario: from the node "Customer Object" with the single
    row (id, string, "starting with **cus_**") and its child endpoint
    GET /customers/:id, extraction pushes the type Customer and the request
    GetCustomerRequest, and emission writes a type declaration whose field
    renders as id: `cus_${string}`;, a request declaration in which id has
    no '?' marker whatever flag the documentation declares, and an API
    function getCustomer that calls client.get('/customers/{}', request.id)
    and returns response.data<R, Error>(). *)
Theorem customer_scenario :
  forall (node : NodePath) (fixes : Fixes) (product : Product.t) (declared : bool),
    fixes "customer-object" = None ->
    fixes "get-customer" = None ->
    let references :=
      [Scenario.customer (Product.id product); Scenario.request (Product.id product)] in
    Extractor.handleReference fixes product (Scenario.customerObject declared)
      None [] = Ok references /\
    Emit.emit references =
    [ Ok [ (Emit.refPath (Scenario.customer (Product.id product)),
            Scenario.customerFile);
           (path_join [Emit.generatedRoot; Product.id product; "apis"; "Customer.ts"],
            Scenario.apiFile) ];
      Ok [ (Emit.refPath (Scenario.request (Product.id product)),
            Scenario.requestFile) ] ].
Proof.
  intros node fixes product declared Hc Hr references.
  split.
  - vm_compute. rewrite Hc, Hr. reflexivity.
  - destruct product as [pid urls]. vm_compute. reflexivity.
Qed.

Lemma customer_scenario_witness :
  let product := Product.make "collect" ["https://docs.rapyd.net/reference"] in
  let references := [Scenario.customer "collect"; Scenario.request "collect"] in
  Extractor.handleReference noFixes product (Scenario.customerObject false)
    None [] = Ok references /\
  @Emit.emit stubPath references =
  [ Ok [ (@Emit.refPath stubPath (Scenario.customer "collect"),
          Scenario.customerFile);
         (@path_join stubPath
            [@Emit.generatedRoot stubPath; "collect"; "apis"; "Customer.ts"],
          Scenario.apiFile) ];
    Ok [ (@Emit.refPath stubPath (Scenario.request "collect"),
          Scenario.requestFile) ] ].
Proof.
  exact (customer_scenario stubPath noFixes
           (Product.make "collect" ["https://docs.rapyd.net/reference"]) false
           eq_refl eq_refl).
Defined.

(** ** The dictionary [uniqueFields] *)

Section Dictionary.
Import Emit Extract.







Lemma existsb_eqb_In (k : string) (l : list string) :
  existsb (String.eqb k) l = true <-> In k l.
Proof.
  rewrite existsb_exists. split.
  - intros [x [Hx E]]. apply String.eqb_eq in E. now subst.
  - intros H. exists k. split; [assumption | apply String.eqb_refl].
Qed.





End Dictionary.

(** ** The order of [Object.values] *)

Section ObjectValues.
Import Emit Extract.








End ObjectValues.

(** ** Field deduplication *)



(** ** Extraction only appends *)

Section AppendOnly.
Import Extractor.

Lemma appendOnly_skip : appendOnly (fun references => Ok references).
Proof. intros r. simpl. now rewrite app_nil_r. Qed.

Lemma appendOnly_throw (e : Exn) : appendOnly (fun _ => Throw e).
Proof. intros r. reflexivity. Qed.

Lemma appendOnly_push (x : Ref.t) : appendOnly (fun references => Ok (push references x)).
Proof. intros r. reflexivity. Qed.

Lemma appendOnly_bind (s1 s2 : References -> Result Exn References) :
  appendOnly s1 -> appendOnly s2 ->
  appendOnly (fun references => r <- s1 references ;; s2 r).
Proof.
  intros H1 H2 r. rewrite (H1 r).
  destruct (s1 []) as [n1|e]; simpl; [|reflexivity].
  rewrite (H2 (r ++ n1)%list), (H2 n1).
  destruct (s2 []) as [n2|e]; simpl; [|reflexivity].
  now rewrite app_assoc.
Qed.

Lemma appendOnly_ext (s1 s2 : References -> Result Exn References) :
  (forall r, s1 r = s2 r) -> appendOnly s1 -> appendOnly s2.
Proof. intros E H r. rewrite <- !E. apply H. Qed.

Lemma appendOnly_forEach {A} (step : A -> References -> Result Exn References)
  (xs : list A) :
  Forall (fun x => appendOnly (step x)) xs -> appendOnly (forEach step xs).
Proof.
  induction 1 as [|x xs Hx _ IH]; simpl.
  - apply appendOnly_skip.
  - now apply appendOnly_bind.
Qed.

Lemma appendOnly_addType fixes product reference :
  appendOnly (addType fixes product reference).
Proof.
  unfold addType. destruct (blocks reference) as [|[block|] ?].
  - apply appendOnly_skip.
  - destruct (getTypeTable block); simpl.
    + apply appendOnly_push.
    + apply appendOnly_throw.
  - apply appendOnly_throw.
Qed.

Lemma appendOnly_addRequest fixes product reference parent :
  appendOnly (addRequest fixes product reference parent).
Proof.
  unfold addRequest. destruct (api reference); [|apply appendOnly_throw].
  destruct (requestName (title reference)); simpl.
  - apply appendOnly_push.
  - apply appendOnly_throw.
Qed.

(** induction on a documentation tree, the children taken together *)
Lemma DocNode_tree_ind (P : DocNode -> Prop) :
  (forall ty ti sl ex bo bl ap cs,
      match cs with Some l => Forall P l | None => True end ->
      P (mkNode ty ti sl ex bo bl ap cs)) ->
  forall n, P n.
Proof.
  intros H. fix IH 1. intros [ty ti sl ex bo bl ap cs]. apply H.
  destruct cs as [l|]; [|exact I].
  induction l as [|c l IHl]; constructor; [apply IH | exact IHl].
Qed.

(** [handleReference], one level unfolded *)
Lemma handleReference_eq fixes product reference parent references :
  handleReference fixes product reference parent references =
  let reference := setTitle (remove productSuffix (title reference)) reference in
  if String.eqb (type reference) "basic" then
    if Str.includes (title reference) "Sequence" then Ok references
    else if Str.endsWith (title reference) "Object" then
      references <- addType fixes (Product.id product) reference references ;;
      match children reference with
      | Some cs =>
          forEach (fun child =>
                     handleReference fixes product child (Some reference))
                  cs references
      | None => Ok references
      end
    else if Str.endsWith (title reference) "Errors" then
      match parent with
      | Some p => Ok (addErrors fixes (Product.id product) reference (slug p)
                        references)
      | None => Ok references
      end
    else Ok references
  else if String.eqb (type reference) "endpoint" then
    match parent with
    | Some p => addRequest fixes (Product.id product) reference (slug p) references
    | None => Ok references
    end
  else Ok references.
Proof. destruct reference; reflexivity. Qed.

Lemma appendOnly_handleReference fixes product :
  forall reference parent,
    appendOnly (handleReference fixes product reference parent).
Proof.
  induction reference as [ty ti sl ex bo bl ap cs IH] using DocNode_tree_ind.
  intros parent.
  eapply appendOnly_ext; [intros r; symmetry; apply handleReference_eq|].
  cbv zeta. simpl type. simpl title. simpl children.
  destruct (String.eqb ty "basic").
  - destruct (Str.includes _ "Sequence"); [apply appendOnly_skip|].
    destruct (Str.endsWith _ "Object").
    + apply appendOnly_bind; [apply appendOnly_addType|].
      destruct cs as [l|]; [|apply appendOnly_skip].
      apply appendOnly_forEach.
      eapply Forall_impl; [|exact IH]. intros c Hc. apply Hc.
    + destruct (Str.endsWith _ "Errors"); [|apply appendOnly_skip].
      destruct parent; [apply appendOnly_push | apply appendOnly_skip].
  - destruct (String.eqb ty "endpoint"); [|apply appendOnly_skip].
    destruct parent; [apply appendOnly_addRequest | apply appendOnly_skip].
Qed.

End AppendOnly.

(** ** The order of the Reference list *)

Section RunOrder.
Import Extractor Run.

Lemma bind_Ok {A B} (r : Result Exn A) (k : A -> Result Exn B) (b : B) :
  (x <- r ;; k x) = Ok b -> exists a, r = Ok a /\ k a = Ok b.
Proof. destruct r as [a|e]; simpl; [eauto | discriminate]. Qed.

(** an append-only step that succeeds from some list succeeds from the
    empty one, and pushes the same records *)
Lemma appendOnly_Ok (step : References -> Result Exn References) :
  appendOnly step ->
  forall refs r, step refs = Ok r ->
                 exists new, step [] = Ok new /\ r = (refs ++ new)%list.
Proof.
  intros H refs r E. rewrite (H refs) in E.
  apply bind_Ok in E as [new [E1 E2]]. exists new. split; [assumption|].
  now injection E2.
Qed.

Lemma appendOnly_from (step : References -> Result Exn References) :
  appendOnly step ->
  forall refs new, step [] = Ok new -> step refs = Ok (refs ++ new)%list.
Proof. intros H refs new E. rewrite (H refs), E. reflexivity. Qed.

Variable fixes : Fixes.
Variable web : string -> Result Exn (list DocNode).

Lemma appendOnly_page product docs : appendOnly (page fixes product docs).
Proof.
  apply appendOnly_forEach, Forall_forall. intros n _.
  apply appendOnly_handleReference.
Qed.

Lemma appendOnly_arrive job : appendOnly ((arrive fixes web) job).
Proof.
  unfold arrive. destruct (web (snd job)); simpl.
  - apply appendOnly_page.
  - apply appendOnly_throw.
Qed.

Lemma forEach_arrive_perm (o1 o2 : list Job) :
  Permutation o1 o2 ->
  forall refs r1,
    forEach (arrive fixes web) o1 refs = Ok r1 ->
    exists r2, forEach (arrive fixes web) o2 refs = Ok r2 /\ Permutation r1 r2.
Proof.
  induction 1 as [| x l l' _ IH | x y l | l l' l'' _ IH1 _ IH2]; intros refs r1 E.
  - exists r1. split; [assumption | apply Permutation_refl].
  - simpl in E. apply bind_Ok in E as [refs' [E1 E2]].
    destruct (IH _ _ E2) as [r2 [E3 P]].
    exists r2. split; [simpl; rewrite E1; exact E3 | exact P].
  - simpl in E.
    apply bind_Ok in E as [ry [Ey E]]. apply bind_Ok in E as [rx [Ex E]].
    destruct (appendOnly_Ok _ (appendOnly_arrive y) _ _ Ey) as [ny [Ny ->]].
    destruct (appendOnly_Ok _ (appendOnly_arrive x) _ _ Ex) as [nx [Nx ->]].
    assert (appendOnly (forEach (arrive fixes web) l)) as Hl.
    { apply appendOnly_forEach, Forall_forall. intros j _. apply appendOnly_arrive. }
    destruct (appendOnly_Ok _ Hl _ _ E) as [rest [Nl ->]].
    exists (((refs ++ nx) ++ ny) ++ rest)%list. split.
    + simpl.
      rewrite (appendOnly_from _ (appendOnly_arrive x) refs nx Nx). simpl.
      rewrite (appendOnly_from _ (appendOnly_arrive y) _ ny Ny). simpl.
      apply (appendOnly_from _ Hl), Nl.
    + apply Permutation_app_tail. rewrite <- !app_assoc.
      apply Permutation_app_head, Permutation_app_comm.
  - destruct (IH1 _ _ E) as [r2 [E2 P2]].
    destruct (IH2 _ _ E2) as [r3 [E3 P3]].
    exists r3. split; [assumption | eapply perm_trans; eassumption].
Qed.

End RunOrder.

(** C3, as the code has it. The pages are fetched concurrently and each
    pushes its References when it arrives, so the Reference list follows the
    order of arrival: two runs on identical documents whose pages arrive in
    the same order produce the same list, hence the same artifact whatever
    the serializer; when the pages arrive in another order the second run
    succeeds as well and its list is a permutation of the first. *)
Theorem extraction_deterministic_up_to_arrival :
  forall (fixes : Fixes) (web : string -> Result Exn (list DocNode))
         (o1 o2 : list Run.Job) (r1 : list Ref.t),
    Permutation o1 o2 ->
    Run.run fixes web o1 = Ok r1 ->
    exists r2,
      Run.run fixes web o2 = Ok r2 /\
      Permutation r1 r2 /\
      (o1 = o2 -> forall stringify : list Ref.t -> string,
                    stringify r1 = stringify r2).
Proof.
  intros fixes web o1 o2 r1 P E.
  unfold Run.run in E.
  destruct (forEach_arrive_perm fixes web o1 o2 P [] r1 E) as [r2 [E2 P2]].
  exists r2. split; [exact E2 | split; [exact P2|]].
  intros -> stringify. rewrite E in E2. now injection E2 as ->.
Qed.

Lemma extraction_deterministic_up_to_arrival_witness :
  exists r2,
    Run.run noFixes Pages.web (rev (Run.jobs Pages.products)) = Ok r2 /\
    Permutation [Pages.payment; Pages.walletRef] r2 /\
    (Run.jobs Pages.products = rev (Run.jobs Pages.products) ->
     forall stringify : list Ref.t -> string,
       stringify [Pages.payment; Pages.walletRef] = stringify r2).
Proof.
  apply (extraction_deterministic_up_to_arrival noFixes Pages.web
           (Run.jobs Pages.products) (rev (Run.jobs Pages.products))).
  - simpl. apply perm_swap.
  - vm_compute. reflexivity.
Defined.

(** C3, counterexample. With two products of one page each, both orders
    of arrival are runs of the script on the same documents, and they
    produce different Reference lists. *)
Lemma extraction_order_dependent :
  Permutation (Run.jobs Pages.products) (rev (Run.jobs Pages.products)) /\
  Run.run noFixes Pages.web (Run.jobs Pages.products) =
    Ok [Pages.payment; Pages.walletRef] /\
  Run.run noFixes Pages.web (rev (Run.jobs Pages.products)) =
    Ok [Pages.walletRef; Pages.payment] /\
  ~ (forall o1 o2 : list Run.Job,
       Permutation o1 (Run.jobs Pages.products) ->
       Permutation o2 (Run.jobs Pages.products) ->
       Run.run noFixes Pages.web o1 = Run.run noFixes Pages.web o2).
Proof.
  assert (Permutation (Run.jobs Pages.products) (rev (Run.jobs Pages.products)))
    as P by (simpl; apply perm_swap).
  split; [exact P|]. split; [vm_compute; reflexivity|].
  split; [vm_compute; reflexivity|].
  intros H.
  specialize (H (Run.jobs Pages.products) (rev (Run.jobs Pages.products))
                (Permutation_refl _) (Permutation_sym P)).
  vm_compute in H. discriminate H.
Qed.

(** ** The ids of the References *)

Section Ids.
Import Extractor Run.

Lemma Subseq_nil_l {A} (l : list A) : Subseq [] l.
Proof. induction l; constructor; assumption. Qed.

Lemma Subseq_refl {A} (l : list A) : Subseq l l.
Proof. induction l; constructor; assumption. Qed.

Lemma Subseq_app {A} (a b c d : list A) :
  Subseq a b -> Subseq c d -> Subseq (a ++ c) (b ++ d).
Proof.
  induction 1 as [| x l1 l2 _ IH | x l1 l2 _ IH]; intros Hcd; simpl.
  - exact Hcd.
  - apply Subseq_skip. now apply IH.
  - apply Subseq_take. now apply IH.
Qed.

Lemma Subseq_In {A} (l1 l2 : list A) (x : A) : Subseq l1 l2 -> In x l1 -> In x l2.
Proof.
  induction 1 as [| y l1 l2 _ IH | y l1 l2 _ IH]; simpl; intros H.
  - assumption.
  - right. now apply IH.
  - destruct H as [H | H]; [now left | right; now apply IH].
Qed.

Lemma Subseq_NoDup {A} (l1 l2 : list A) : Subseq l1 l2 -> NoDup l2 -> NoDup l1.
Proof.
  induction 1 as [| y l1 l2 S IH | y l1 l2 S IH]; intros H.
  - constructor.
  - inversion H; subst. now apply IH.
  - inversion H as [| ? ? Hy Hl]; subst. constructor; [|now apply IH].
    intros Hin. apply Hy. eapply Subseq_In; eassumption.
Qed.

Variable fixes : Fixes.
Hypothesis Hfixes : keepsIds fixes.

Lemma Patch_apply_id (s : string) (r : Ref.t) :
  Ref.id (Patch.apply (fixes s) r) = Ref.id r.
Proof.
  unfold Patch.apply. destruct (fixes s) as [p|] eqn:E; [|reflexivity].
  simpl. now rewrite (Hfixes s p E).
Qed.

(** the ids pushed by a loop are among the slugs its steps may push *)
Lemma forEach_ids {A} (step : A -> References -> Result Exn References)
  (g : A -> list string) (xs : list A) :
  Forall (fun x => appendOnly (step x) /\
                   forall out, step x [] = Ok out ->
                               Subseq (List.map Ref.id out) (g x)) xs ->
  forall out, forEach step xs [] = Ok out ->
              Subseq (List.map Ref.id out) (flat_map g xs).
Proof.
  induction 1 as [|x xs [Hx Sx] Hxs IH]; intros out E; simpl in E.
  - injection E as <-. constructor.
  - apply bind_Ok in E as [r1 [E1 E2]].
    assert (appendOnly (forEach step xs)) as Hl.
    { apply appendOnly_forEach. eapply Forall_impl; [|exact Hxs]. now intros a []. }
    destruct (appendOnly_Ok _ Hl _ _ E2) as [rest [Er ->]].
    rewrite map_app. simpl. apply Subseq_app; [now apply Sx | now apply IH].
Qed.

Lemma addType_ids product reference out :
  addType fixes product reference [] = Ok out ->
  Subseq (List.map Ref.id out) [slug reference].
Proof.
  unfold addType. destruct (blocks reference) as [|[block|] ?]; intros E.
  - injection E as <-. apply Subseq_nil_l.
  - apply bind_Ok in E as [table [_ E]]. injection E as <-.
    simpl. rewrite Patch_apply_id. apply Subseq_refl.
  - discriminate.
Qed.

Lemma addRequest_ids product reference parent out :
  addRequest fixes product reference parent [] = Ok out ->
  List.map Ref.id out = [slug reference].
Proof.
  unfold addRequest. destruct (api reference); [|discriminate].
  intros E. apply bind_Ok in E as [name [_ E]]. injection E as <-.
  simpl. now rewrite Patch_apply_id.
Qed.

Lemma handleReference_ids product :
  forall reference parent out,
    handleReference fixes product reference parent [] = Ok out ->
    Subseq (List.map Ref.id out) (slugs reference).
Proof.
  induction reference as [ty ti sl ex bo bl ap cs IH] using DocNode_tree_ind.
  intros parent out. rewrite handleReference_eq.
  cbv zeta. simpl type. simpl title. simpl children. simpl slugs.
  set (reference := setTitle _ _).
  assert (forall l : list string, Subseq [] (sl :: l)) as Hnone
      by (intros; apply Subseq_nil_l).
  assert (forall l : list string, Subseq [sl] (sl :: l)) as Hone
      by (intros; constructor; apply Subseq_nil_l).
  destruct (String.eqb ty "basic").
  - destruct (Str.includes _ "Sequence").
    { intros E. injection E as <-. apply Hnone. }
    destruct (Str.endsWith _ "Object").
    + intros E. apply bind_Ok in E as [r1 [E1 E2]].
      apply addType_ids in E1. change (slug reference) with sl in E1.
      destruct cs as [l|].
      * assert (appendOnly (forEach (fun child => handleReference fixes product
                                         child (Some reference)) l)) as Hl.
        { apply appendOnly_forEach, Forall_forall. intros c _.
          apply appendOnly_handleReference. }
        destruct (appendOnly_Ok _ Hl _ _ E2) as [rest [Er ->]].
        rewrite map_app. apply (Subseq_app _ [sl]); [exact E1|].
        revert Er. apply forEach_ids.
        eapply Forall_impl; [|exact IH]. intros c Hc. split.
        -- apply appendOnly_handleReference.
        -- apply Hc.
      * injection E2 as <-. rewrite <- (app_nil_r (List.map Ref.id r1)).
        apply (Subseq_app _ [sl]); [exact E1 | constructor].
    + destruct (Str.endsWith _ "Errors").
      * destruct parent; intros E; injection E as <-.
        -- simpl. rewrite Patch_apply_id. apply Hone.
        -- apply Hnone.
      * intros E. injection E as <-. apply Hnone.
  - destruct (String.eqb ty "endpoint").
    + destruct parent; intros E.
      * apply addRequest_ids in E. rewrite E. apply Hone.
      * injection E as <-. apply Hnone.
    + intros E. injection E as <-. apply Hnone.
Qed.

Lemma arrive_ids web job out :
  arrive fixes web job [] = Ok out ->
  Subseq (List.map Ref.id out) (pageSlugs web job).
Proof.
  unfold arrive, pageSlugs. destruct (web (snd job)) as [docs|]; [|discriminate].
  simpl. apply forEach_ids, Forall_forall. intros n _. split.
  - apply appendOnly_handleReference.
  - apply handleReference_ids.
Qed.

End Ids.

(** C4, as the code has it. The id of a Reference is the slug of its
    node, and nothing removes duplicates: when the slugs of the documents of
    the pages are pairwise distinct and the overlay does not override an id,
    no two References of the list share an id. *)
Theorem ids_unique_when_slugs_unique :
  forall (fixes : Fixes) (web : string -> Result Exn (list DocNode))
         (completion : list Run.Job) (references : list Ref.t),
    Run.keepsIds fixes ->
    NoDup (flat_map (Run.pageSlugs web) completion) ->
    Run.run fixes web completion = Ok references ->
    NoDup (List.map Ref.id references).
Proof.
  intros fixes web completion references Hfixes Hslugs E.
  eapply Subseq_NoDup; [|exact Hslugs].
  unfold Run.run in E. revert E.
  apply forEach_ids, Forall_forall. intros job _. split.
  - apply appendOnly_arrive.
  - now apply arrive_ids.
Qed.

Lemma ids_unique_when_slugs_unique_witness :
  NoDup (List.map Ref.id [Pages.payment; Pages.walletRef]).
Proof.
  apply (ids_unique_when_slugs_unique noFixes Pages.web (Run.jobs Pages.products)).
  - intros s p H. discriminate H.
  - vm_compute. constructor; [simpl; intros [H | []]; discriminate H|].
    constructor; [intros [] | constructor].
  - vm_compute. reflexivity.
Defined.

(** C4, counterexample. A product whose two pages embed the same document
    yields two References with the id of that document. *)
Lemma duplicate_ids :
  Run.run noFixes Pages.web (Run.jobs [Pages.collectTwoPages]) =
    Ok [Pages.payment; Pages.payment] /\
  ~ NoDup (List.map Ref.id [Pages.payment; Pages.payment]).
Proof.
  split; [vm_compute; reflexivity|].
  intros H. inversion H as [| ? ? Hn _]; subst. apply Hn. now left.
Qed.

(** ** Requests *)

Section Requests.
Import Extractor Re.

Lemma startsWith_char (c : ascii) (s : string) :
  Str.startsWith s (String c "") =
  match s with
  | String b _ => Ascii.eqb c b
  | EmptyString => false
  end.
Proof. destruct s as [|b r]; simpl; [reflexivity | now rewrite andb_true_r]. Qed.

(** [indexOf] finds the first occurrence of a character *)
Lemma indexOf_char (c : ascii) (s : string) :
  match Str.indexOf s (String c "") with
  | Some i => (forall n, String.get n (Str.take i s) <> Some c) /\
              exists rest, s = Str.take i s ++ String c rest
  | None => forall n, String.get n s <> Some c
  end.
Proof.
  induction s as [|b r IH].
  - simpl. intros n. destruct n; discriminate.
  - unfold Str.indexOf; fold Str.indexOf. rewrite startsWith_char.
    destruct (Ascii.eqb c b) eqn:E.
    + apply Ascii.eqb_eq in E. subst b. simpl. split.
      * intros n. destruct n; discriminate.
      * now exists r.
    + apply Ascii.eqb_neq in E.
      destruct (Str.indexOf r (String c "")) as [i|]; simpl.
      * destruct IH as [Hno [rest Hrest]]. split.
        -- intros [|n]; simpl; [congruence | apply Hno].
        -- exists rest. now rewrite <- Hrest.
      * intros [|n]; simpl; [congruence | apply IH].
Qed.

Lemma beforeQuery_cut (url : string) : cutBefore "?" url (beforeQuery url).
Proof.
  unfold beforeQuery, cutBefore.
  pose proof (indexOf_char "?" url) as H.
  destruct (Str.indexOf url "?") as [i|].
  - destruct H as [Hno [rest Hrest]]. split; [exact Hno|].
    right. now exists rest.
  - split; [exact H | now left].
Qed.

Lemma span_allWord (s a b : string) :
  span Str.isWord s = (a, b) ->
  s = a ++ b /\ allWord a = true /\ startsWithWord b = false /\
  length b <= length s.
Proof.
  revert a b. induction s as [|c r IH]; simpl; intros a b E.
  - injection E as <- <-. auto.
  - destruct (Str.isWord c) eqn:Hc.
    + destruct (span Str.isWord r) as [a' b'] eqn:Er. injection E as <- <-.
      destruct (IH a' b' eq_refl) as [-> [Ha [Hb Hl]]].
      simpl. rewrite Hc, Ha. auto.
    + injection E as <- <-. simpl. auto.
Qed.

(** passing over the characters of a match *)
Lemma scan_skip {A} (m : Matcher A) (a b : string) :
  scan m (length a) (a ++ b) = scan m 0 b.
Proof. induction a as [|c a IH]; simpl; [reflexivity | exact IH]. Qed.

Lemma length_append (a b : string) : length (a ++ b) = length a + length b.
Proof. induction a; simpl; auto. Qed.

Lemma colonParam_eq (c : ascii) (r : string) :
  colonParam (String c r) =
  if Ascii.eqb c ":" then many1 Str.isWord r else None.
Proof.
  unfold colonParam, seq, lit. rewrite startsWith_char.
  rewrite (Ascii.eqb_sym ":" c). now destruct (Ascii.eqb c ":").
Qed.

Lemma many1_None_startsWithWord (r : string) :
  many1 Str.isWord r = None -> startsWithWord r = false.
Proof.
  unfold many1. destruct r as [|c r]; simpl; [reflexivity|].
  destruct (Str.isWord c); [|reflexivity].
  now destruct (span Str.isWord r).
Qed.

Lemma append_empty_r (s : string) : s ++ "" = s.
Proof. induction s as [|c s IH]; simpl; [reflexivity | now rewrite IH]. Qed.

Lemma append_assoc' (a b c : string) : (a ++ b) ++ c = a ++ b ++ c.
Proof. induction a as [|x a IH]; simpl; [reflexivity | now rewrite IH]. Qed.

Lemma concat_cons (x : string) (l : list string) :
  String.concat "" (x :: l) = x ++ String.concat "" l.
Proof. destruct l; simpl; [now rewrite append_empty_r | reflexivity]. Qed.

Lemma scan_cons {A} (m : Matcher A) (c : ascii) (r : string) :
  scan m 0 (String c r) =
  match m (String c r) with
  | Some (a, rest) => inr a :: scan m (length (String c r) - length rest - 1) r
  | None => inl c :: scan m 0 r
  end.
Proof. reflexivity. Qed.

Lemma bracePath_cons_char (c : ascii) (r : string) :
  colonParam (String c r) = None ->
  bracePath (String c r) = String c (bracePath r).
Proof.
  intros E. unfold bracePath, replaceAll.
  rewrite scan_cons, E. rewrite map_cons, concat_cons. reflexivity.
Qed.

Lemma bracePath_param (name rest : string) :
  many1 Str.isWord (name ++ rest) = Some (name, rest) ->
  bracePath (":" ++ name ++ rest) = "{" ++ name ++ "}" ++ bracePath rest.
Proof.
  intros E. unfold bracePath, replaceAll.
  change (":" ++ name ++ rest) with (String ":" (name ++ rest)).
  rewrite scan_cons, colonParam_eq. simpl Ascii.eqb. cbv iota. rewrite E.
  replace (length (String ":" (name ++ rest)) - length rest - 1)
    with (length name)
    by (change (length (String ":" (name ++ rest)))
          with (S (length (name ++ rest)));
        rewrite length_append; lia).
  rewrite scan_skip, map_cons, concat_cons.
  now rewrite !append_assoc'.
Qed.

(** the rewriting of [:name] to [{name}] does what [Braced] says *)
Lemma bracePath_Braced (path : string) : Braced path (bracePath path).
Proof.
  remember (length path) as n eqn:Hn.
  assert (length path <= n) as Hle by lia. clear Hn.
  revert path Hle. induction n as [|n IH]; intros path Hle.
  - destruct path; [apply Braced_end | simpl in Hle; lia].
  - destruct path as [|c r]; [apply Braced_end|]. simpl in Hle.
    destruct (colonParam (String c r)) as [[name rest]|] eqn:E.
    + rewrite colonParam_eq in E.
      destruct (Ascii.eqb c ":") eqn:Ec; [|discriminate].
      apply Ascii.eqb_eq in Ec. subst c.
      unfold many1 in E. destruct (span Str.isWord r) as [a b] eqn:Es.
      destruct (span_allWord _ _ _ Es) as [-> [Ha [Hb Hl]]].
      destruct a as [|a0 a]; [discriminate|]. injection E as <- <-.
      change (Braced (":" ++ String a0 a ++ b)
                     (bracePath (":" ++ String a0 a ++ b))).
      rewrite (bracePath_param (String a0 a) b)
        by (unfold many1; now rewrite Es).
      apply Braced_param; [discriminate | exact Ha | exact Hb|].
      apply IH. lia.
    + rewrite (bracePath_cons_char _ _ E).
      apply Braced_char; [|apply IH; lia].
      rewrite colonParam_eq in E.
      destruct (Ascii.eqb c ":") eqn:Ec.
      * right. now apply many1_None_startsWithWord.
      * left. now apply Ascii.eqb_neq.
Qed.

Lemma span_word_run (name rest : string) :
  allWord name = true -> startsWithWord rest = false ->
  span Str.isWord (name ++ rest) = (name, rest).
Proof.
  intros Hw Hr. induction name as [|c name IH]; simpl in *.
  - destruct rest as [|c rest]; simpl in *; [reflexivity | now rewrite Hr].
  - apply andb_true_iff in Hw as [Hc Hw]. now rewrite Hc, (IH Hw).
Qed.

Lemma many1_startsWithWord (rest : string) :
  startsWithWord rest = false -> many1 Str.isWord rest = None.
Proof.
  intros H. unfold many1. destruct rest as [|c rest]; [reflexivity|].
  simpl in *. now rewrite H.
Qed.

(** [Braced] determines the rewritten path: it is the one [bracePath] gives *)
Lemma Braced_bracePath (path out : string) :
  Braced path out -> out = bracePath path.
Proof.
  induction 1 as [| name rest out Hne Hw Hr _ IH | c rest out Hc _ IH].
  - reflexivity.
  - rewrite bracePath_param; [now rewrite IH|].
    unfold many1. rewrite (span_word_run name rest Hw Hr).
    destruct name; [congruence | reflexivity].
  - rewrite bracePath_cons_char; [now rewrite IH|].
    rewrite colonParam_eq. destruct (Ascii.eqb c ":") eqn:E; [|reflexivity].
    apply Ascii.eqb_eq in E. destruct Hc as [Hc | Hc]; [congruence|].
    now apply many1_startsWithWord.
Qed.

Lemma Braced_functional (path out1 out2 : string) :
  Braced path out1 -> Braced path out2 -> out1 = out2.
Proof.
  intros H1 H2. apply Braced_bracePath in H1, H2. congruence.
Qed.

End Requests.

Section AddRequest.
Import Extractor.

Lemma handleReference_endpoint fixes product reference parent references :
  type reference = "endpoint" ->
  handleReference fixes product reference (Some parent) references =
  addRequest fixes (Product.id product)
    (setTitle (remove productSuffix (title reference)) reference)
    (slug parent) references.
Proof.
  intros H. rewrite handleReference_eq. cbv zeta.
  destruct reference as [ty ti sl ex bo bl ap cs]. simpl in *. subst ty.
  reflexivity.
Qed.

Lemma handleReference_request fixes product reference parent references a name :
  type reference = "endpoint" ->
  api reference = Some a ->
  requestName (remove productSuffix (title reference)) = Ok name ->
  handleReference fixes product reference (Some parent) references =
  Ok (references ++
      [Patch.apply (fixes (slug reference))
         (extractedRequest (Product.id product) reference (slug parent) a name)])%list.
Proof.
  intros Ht Ha Hn. rewrite handleReference_endpoint by exact Ht.
  unfold addRequest. destruct reference as [ty ti sl ex bo bl ap cs].
  simpl in *. subst ap. rewrite Hn. reflexivity.
Qed.

Lemma getParamsIn_names (a : Api.t) (location : string) :
  List.map Field.name (getParamsIn a location) =
  List.map Param.name
    (filter (fun q => String.eqb (Param.in_ q) location) (Api.params a)).
Proof. unfold getParamsIn. rewrite map_map. reflexivity. Qed.

Lemma excludeHeaders_lower :
  Forall (fun e => Str.toLowerCase e = e) excludeHeaders.
Proof. repeat constructor. Qed.

(** [keptHeader] decides the case-insensitive membership in the list *)
Lemma keptHeader_spec (h : Field.t) :
  keptHeader h = true <-> ~ excludedName (Field.name h).
Proof.
  unfold keptHeader, includes, excludedName, sameIgnoringCase.
  rewrite negb_true_iff, <- not_true_iff_false, existsb_eqb_In.
  pose proof excludeHeaders_lower as L. rewrite Forall_forall in L.
  split; intros H C; apply H.
  - destruct C as [e [He E]]. rewrite E, (L e He). exact He.
  - exists (Str.toLowerCase (Field.name h)). split; [exact C|].
    symmetry. now apply L.
Qed.

End AddRequest.

Example bracePath_customer_payment :
  Extractor.bracePath "/customer/:id/payment" = "/customer/{id}/payment".
Proof. reflexivity. Qed.

(** C5. Request path extraction: for an endpoint node with a parent, whose
    title yields a name and whose path and params the overlay leaves alone,
    one request is pushed; its path is the documented url cut before its
    first '?', with every colon-style parameter :name written {name}, and
    its params are the parameters declared in 'path', in their order, all
    with required = true whatever flag they declare. *)
Theorem request_path_and_params :
  forall (fixes : Fixes) (product : Product.t) (reference parent : DocNode)
         (references : list Ref.t) (a : Api.t) (name : string),
    type reference = "endpoint" ->
    api reference = Some a ->
    Extractor.requestName
      (Extractor.remove Extractor.productSuffix (title reference)) = Ok name ->
    (forall p, fixes (slug reference) = Some p ->
               Patch.path p = None /\ Patch.params p = None) ->
    exists (r : Ref.t) (path : string) (params : list Field.t),
      Extractor.handleReference fixes product reference (Some parent) references
      = Ok (references ++ [r])%list /\
      Ref.path r = Some path /\
      Extractor.cutBefore "?" (Api.url a) (Extractor.beforeQuery (Api.url a)) /\
      Extractor.Braced (Extractor.beforeQuery (Api.url a)) path /\
      Ref.params r = Some params /\
      List.map Field.name params =
      List.map Param.name
        (filter (fun q => String.eqb (Param.in_ q) "path") (Api.params a)) /\
      Forall (fun f => Field.required f = true) params.
Proof.
  intros fixes product reference parent references a name Ht Ha Hn Hfix.
  eexists. exists (Extractor.bracePath (Extractor.beforeQuery (Api.url a))).
  exists (List.map Extractor.forceRequired (Extractor.getParamsIn a "path")).
  split; [apply (handleReference_request _ _ _ _ _ a name); assumption|].
  assert (forall r, Ref.path (Patch.apply (fixes (slug reference)) r) = Ref.path r
                    /\ Ref.params (Patch.apply (fixes (slug reference)) r)
                       = Ref.params r) as Hkeep.
  { intros r. unfold Patch.apply.
    destruct (fixes (slug reference)) as [p|] eqn:E; [|auto].
    destruct (Hfix p eq_refl) as [H1 H2]. simpl. now rewrite H1, H2. }
  split; [now rewrite (proj1 (Hkeep _))|].
  split; [apply beforeQuery_cut|].
  split; [apply bracePath_Braced|].
  split; [now rewrite (proj2 (Hkeep _))|].
  split.
  - rewrite map_map. simpl. apply getParamsIn_names.
  - apply Forall_forall. intros f Hf. apply in_map_iff in Hf as [x [<- _]].
    reflexivity.
Qed.

Lemma request_path_and_params_witness :
  exists (r : Ref.t) (path : string) (params : list Field.t),
    Extractor.handleReference noFixes Pages.collect Pages.listPayments
      (Some Pages.paymentObject) [Pages.payment]
    = Ok ([Pages.payment] ++ [r])%list /\
    Ref.path r = Some path /\
    Extractor.cutBefore "?" "/v1/customers/:customer/payments?limit=10"
      (Extractor.beforeQuery "/v1/customers/:customer/payments?limit=10") /\
    Extractor.Braced
      (Extractor.beforeQuery "/v1/customers/:customer/payments?limit=10") path /\
    Ref.params r = Some params /\
    List.map Field.name params = ["customer"] /\
    Forall (fun f => Field.required f = true) params.
Proof.
  apply (request_path_and_params noFixes Pages.collect Pages.listPayments
           Pages.paymentObject [Pages.payment]
           (Api.make "/v1/customers/:customer/payments?limit=10" "get"
              [ Param.make "customer" "path" "string" false "ID of the customer.";
                Param.make "limit" "query" "integer" false "Number of results.";
                Param.make "access_key" "header" "string" true "Access key.";
                Param.make "X-Custom" "header" "string" false "A custom header.";
                Param.make "Content-Type" "header" "string" true "The media type." ])
           "ListPaymentsRequest").
  - reflexivity.
  - reflexivity.
  - vm_compute. reflexivity.
  - intros p H. discriminate H.
Defined.

Example listPayments_extracted :
  Extractor.handleReference noFixes Pages.collect Pages.listPayments
    (Some Pages.paymentObject) [Pages.payment]
  = Ok [Pages.payment; Pages.listPaymentsRequest].
Proof. vm_compute. reflexivity. Qed.

(** C6. Header exclusion: for an endpoint node with a parent, whose title
    yields a name and whose headers the overlay leaves alone, the headers of
    the request pushed are the documented header parameters, in their order,
    without exactly those whose name is, compared case-insensitively, in the
    exclusion list. *)
Theorem request_headers :
  forall (fixes : Fixes) (product : Product.t) (reference parent : DocNode)
         (references : list Ref.t) (a : Api.t) (name : string),
    type reference = "endpoint" ->
    api reference = Some a ->
    Extractor.requestName
      (Extractor.remove Extractor.productSuffix (title reference)) = Ok name ->
    (forall p, fixes (slug reference) = Some p -> Patch.headers p = None) ->
    exists (r : Ref.t) (headers : list Field.t),
      Extractor.handleReference fixes product reference (Some parent) references
      = Ok (references ++ [r])%list /\
      Ref.headers r = Some headers /\
      headers = filter Extractor.keptHeader (Extractor.getParamsIn a "header") /\
      (forall h, Extractor.keptHeader h = true <->
                 ~ Extractor.excludedName (Field.name h)) /\
      (forall h, In h headers <->
                 In h (Extractor.getParamsIn a "header") /\
                 ~ Extractor.excludedName (Field.name h)).
Proof.
  intros fixes product reference parent references a name Ht Ha Hn Hfix.
  eexists. exists (filter Extractor.keptHeader (Extractor.getParamsIn a "header")).
  split; [apply (handleReference_request _ _ _ _ _ a name); assumption|].
  split.
  - unfold Patch.apply.
    destruct (fixes (slug reference)) as [p|] eqn:E; [|reflexivity].
    simpl. now rewrite (Hfix p eq_refl).
  - split; [reflexivity|]. split; [apply keptHeader_spec|].
    intros h. rewrite filter_In, keptHeader_spec. reflexivity.
Qed.

Lemma request_headers_witness :
  exists (r : Ref.t) (headers : list Field.t),
    Extractor.handleReference noFixes Pages.collect Pages.listPayments
      (Some Pages.paymentObject) [Pages.payment]
    = Ok ([Pages.payment] ++ [r])%list /\
    Ref.headers r = Some headers /\
    headers = [Pages.xCustom] /\
    (forall h, Extractor.keptHeader h = true <->
               ~ Extractor.excludedName (Field.name h)) /\
    (forall h, In h headers <->
               In h [ Field.make "access_key" [plain "string"] true "Access key.";
                      Pages.xCustom;
                      Field.make "Content-Type" [plain "string"] true
                                 "The media type." ] /\
               ~ Extractor.excludedName (Field.name h)).
Proof.
  apply (request_headers noFixes Pages.collect Pages.listPayments
           Pages.paymentObject [Pages.payment]
           (Api.make "/v1/customers/:customer/payments?limit=10" "get"
              [ Param.make "customer" "path" "string" false "ID of the customer.";
                Param.make "limit" "query" "integer" false "Number of results.";
                Param.make "access_key" "header" "string" true "Access key.";
                Param.make "X-Custom" "header" "string" false "A custom header.";
                Param.make "Content-Type" "header" "string" true "The media type." ])
           "ListPaymentsRequest").
  - reflexivity.
  - reflexivity.
  - vm_compute. reflexivity.
  - intros p H. discriminate H.
Defined.

(** ** Cross-references that no Reference resolves *)

Example formatType_dangling_in_array :
  Emit.formatType []
    [TNode "array" (Some [Dangling.bare]) None None None None] = "(object)[]".
Proof. reflexivity. Qed.

Example formatInterface_dangling :
  forall node : NodePath,
    Emit.formatInterface [] Dangling.paymentShape true = Ok Dangling.paymentFile.
Proof. intros node. vm_compute. reflexivity. Qed.





(** ** The client accessor *)



Example data_error :
  Client.data Envelope.parse Envelope.toString Envelope.res =
  Throw (Client.Rapyd
           (Client.mkRapydError "The customer was not found."
              (Client.VStr "ERROR_GET_CUSTOMER") (Client.VStr "f6a8f0b2"))).
Proof. vm_compute. reflexivity. Qed.

Example data_not_json :
  Client.data Envelope.parse Envelope.toString
    (Client.mkMessage [("content-type", Client.One "text/html")] (Ok "<html>"))
  = Throw (Client.Native (ErrorMsg "Response is not valid JSON.")).
Proof. vm_compute. reflexivity. Qed.

(** ** Required fields *)

Section Required.
Import Extractor Run Emit.



Lemma forEach_Forall {A} (step : A -> References -> Result Exn References)
  (P : Ref.t -> Prop) (xs : list A) :
  Forall (fun x => appendOnly (step x) /\
                   forall out, step x [] = Ok out -> Forall P out) xs ->
  forall out, forEach step xs [] = Ok out -> Forall P out.
Proof.
  induction 1 as [|x xs [Hx Sx] Hxs IH]; intros out E; simpl in E.
  - injection E as <-. constructor.
  - apply bind_Ok in E as [r1 [E1 E2]].
    assert (appendOnly (forEach step xs)) as Hl.
    { apply appendOnly_forEach. eapply Forall_impl; [|exact Hxs]. now intros a []. }
    destruct (appendOnly_Ok _ Hl _ _ E2) as [rest [Er ->]].
    apply Forall_app. split; [now apply Sx | now apply IH].
Qed.

(** a property of every Reference the [add*] functions push holds of every
    Reference of a run *)
Lemma handleReference_Forall (P : Ref.t -> Prop) fixes product :
  (forall pid n out, addType fixes pid n [] = Ok out -> Forall P out) ->
  (forall pid n parent, Forall P (addErrors fixes pid n parent [])) ->
  (forall pid n parent out, addRequest fixes pid n parent [] = Ok out ->
                            Forall P out) ->
  forall reference parent out,
    handleReference fixes product reference parent [] = Ok out ->
    Forall P out.
Proof.
  intros HT HE HR.
  induction reference as [ty ti sl ex bo bl ap cs IH] using DocNode_tree_ind.
  intros parent out. rewrite handleReference_eq.
  cbv zeta. simpl type. simpl title. simpl children.
  set (reference := setTitle _ _).
  destruct (String.eqb ty "basic").
  - destruct (Str.includes _ "Sequence").
    { intros E. injection E as <-. constructor. }
    destruct (Str.endsWith _ "Object").
    + intros E. apply bind_Ok in E as [r1 [E1 E2]].
      apply HT in E1.
      destruct cs as [l|].
      * assert (appendOnly (forEach (fun child => handleReference fixes product
                                         child (Some reference)) l)) as Hl.
        { apply appendOnly_forEach, Forall_forall. intros c _.
          apply appendOnly_handleReference. }
        destruct (appendOnly_Ok _ Hl _ _ E2) as [rest [Er ->]].
        apply Forall_app. split; [exact E1|].
        revert Er. apply forEach_Forall.
        eapply Forall_impl; [|exact IH]. intros c Hc. split.
        -- apply appendOnly_handleReference.
        -- apply Hc.
      * now injection E2 as <-.
    + destruct (Str.endsWith _ "Errors").
      * destruct parent; intros E; injection E as <-.
        -- apply HE.
        -- constructor.
      * intros E. injection E as <-. constructor.
  - destruct (String.eqb ty "endpoint").
    + destruct parent; intros E.
      * now apply HR in E.
      * injection E as <-. constructor.
    + intros E. injection E as <-. constructor.
Qed.

Lemma run_Forall (P : Ref.t -> Prop) fixes web completion references :
  (forall pid n out, addType fixes pid n [] = Ok out -> Forall P out) ->
  (forall pid n parent, Forall P (addErrors fixes pid n parent [])) ->
  (forall pid n parent out, addRequest fixes pid n parent [] = Ok out ->
                            Forall P out) ->
  run fixes web completion = Ok references ->
  Forall P references.
Proof.
  intros HT HE HR. unfold run.
  apply forEach_Forall, Forall_forall. intros job _. split.
  - apply appendOnly_arrive.
  - unfold arrive. destruct (web (snd job)) as [docs|]; [|discriminate].
    simpl. apply forEach_Forall, Forall_forall. intros n _. split.
    + apply appendOnly_handleReference.
    + now apply handleReference_Forall.
Qed.


(** a type Reference has fields, unless the overlay changes kinds *)
Lemma run_types_have_fields fixes web completion references :
  (forall s p, fixes s = Some p ->
               Patch.fields p = None /\ Patch.type p = None) ->
  run fixes web completion = Ok references ->
  Forall (fun r => Ref.type r = KType -> exists fields, Ref.fields r = Some fields)
         references.
Proof.
  intros Hfixes.
  assert (forall s r, Ref.fields (Patch.apply (fixes s) r) = Ref.fields r /\
                      Ref.type (Patch.apply (fixes s) r) = Ref.type r) as Hf.
  { intros s r. unfold Patch.apply. destruct (fixes s) as [p|] eqn:E; [|auto].
    destruct (Hfixes s p E) as [H1 H2]. simpl. now rewrite H1, H2. }
  apply run_Forall.
  - intros pid n out. unfold addType.
    destruct (blocks n) as [|[block|] ?]; intros E.
    + injection E as <-. constructor.
    + apply bind_Ok in E as [table [Et E]]. injection E as <-.
      constructor; [|constructor]. intros _. exists table.
      now rewrite (proj1 (Hf _ _)).
    + discriminate.
  - intros pid n parent. constructor; [|constructor].
    rewrite (proj2 (Hf _ _)). discriminate.
  - intros pid n parent out. unfold addRequest.
    destruct (api n); [|discriminate].
    intros E. apply bind_Ok in E as [name [_ E]]. injection E as <-.
    constructor; [|constructor]. rewrite (proj2 (Hf _ _)). discriminate.
Qed.

End Required.

Section RequiredEmitted.
Import Emit Extract.





End RequiredEmitted.



(** a request shape, on the other hand, marks a field that is not required *)
Example request_optional_field :
  forall node : NodePath,
    exists path,
      Emit.generateRequest [Pages.payment; Pages.listPaymentsRequest]
        Pages.listPaymentsRequest =
      Ok (path,
          "export interface ListPaymentsRequest {" ++ nl ++
          "  /**" ++ nl ++
          "   * ID of the customer." ++ nl ++
          "   */" ++ nl ++
          "  customer: string;" ++ nl ++
          "  /**" ++ nl ++
          "   * Number of results." ++ nl ++
          "   */" ++ nl ++
          "  limit?: number;" ++ nl ++
          "  /**" ++ nl ++
          "   * A custom header." ++ nl ++
          "   */" ++ nl ++
          "  X-Custom?: string;" ++ nl ++
          "};" ++ nl).
Proof. intros node. eexists. vm_compute. reflexivity. Qed.

(** * Further properties *)

(** ** What a description can do to the inferred types *)

Section Enrichment.
Import Extract.

Lemma splitAux_nonempty (sep : string) (s : string) :
  forall skip cur, Str.splitAux sep skip cur s <> [].
Proof.
  induction s as [|c r IH]; intros skip cur; simpl; [discriminate|].
  destruct skip; [|apply IH].
  destruct (Str.startsWith (String c r) sep); [discriminate | apply IH].
Qed.

(** [getTypes] with an empty description: the types read off the raw type *)
Lemma getTypes_empty (rawType : string) :
  getTypes rawType "" =
  if Str.includes rawType "array of" || Str.includes rawType "list of" then
    [arrayOf (alias (elementTypeName rawType))]
  else if Str.includes rawType " or " then
    List.map (fun typeName => plain (alias typeName)) (Str.split rawType " or ")
  else if String.eqb rawType "array_string" then [arrayOf "string"]
  else if String.eqb rawType "array_object" then [arrayOf "object"]
  else [plain (alias rawType)].
Proof.
  unfold getTypes.
  change (Re.search startsWithRe "") with (@None string).
  change (Re.search objectRefRe "") with (@None string).
  change (Str.includes "" "of the following") with false.
  change (Str.includes "" "ossible values") with false.
  change (Str.includes "" "the following fields") with false.
  cbv zeta. simpl orb. rewrite !andb_false_r. reflexivity.
Qed.

(** what holds of the types of the raw type and is kept by every assignment
    holds of the types [getTypes] returns *)
Lemma getTypes_enrich (Q : list TypeIR -> Prop) (rawType description : string) :
  Q (getTypes rawType "") ->
  (forall types ofType f,
      ofType = "string" \/ ofType = "object" ->
      Setter f -> Q types -> Q (assign types ofType f)) ->
  Q (getTypes rawType description).
Proof.
  intros Hbase Hstep. rewrite getTypes_empty in Hbase. unfold getTypes.
  match type of Hbase with Q ?b => set (base := b) in * end.
  cbv zeta.
  set (stringType := isSome (findType base "string")).
  set (objectType := isSome (findType base "object")).
  set (t1 := match Re.search startsWithRe description with
             | Some prefix =>
                 if stringType then assign base "string" (setStartsWith prefix)
                 else base
             | None => base
             end).
  assert (Q t1) as H1.
  { unfold t1. destruct (Re.search startsWithRe description); [|exact Hbase].
    destruct stringType; [|exact Hbase]. apply Hstep; [now left | constructor | exact Hbase]. }
  clearbody t1.
  set (t2 := if stringType && _ then _ else t1).
  assert (Q t2) as H2.
  { unfold t2. destruct (stringType && _); [|exact H1].
    destruct (collectLines valueLineRe description); [exact H1|].
    apply Hstep; [now left | constructor | exact H1]. }
  clearbody t2.
  set (t3 := if objectType && _ then _ else t2).
  assert (Q t3) as H3.
  { unfold t3. destruct (objectType && _); [|exact H2].
    destruct (collectLines fieldLineRe description); [exact H2|].
    apply Hstep; [now right | constructor | exact H2]. }
  clearbody t3.
  destruct (Re.search objectRefRe description); [|exact H3].
  destruct objectType; [|exact H3].
  apply Hstep; [now right | constructor | exact H3].
Qed.

Lemma tagOf_setter (f : TypeIR -> TypeIR) (t : TypeIR) :
  Setter f -> tagOf (f t) = tagOf t.
Proof. intros []; destruct t; reflexivity. Qed.

Lemma tagOf_assignIn (ofType : string) (f : TypeIR -> TypeIR) (t : TypeIR) :
  tagOf (assignIn ofType f t) = tagOf t.
Proof. destruct t as [? [?|] ? ? ? ?|]; reflexivity. Qed.

Lemma tagOf_updFirst (p : TypeIR -> bool) (f : TypeIR -> TypeIR) (l : list TypeIR) :
  (forall t, tagOf (f t) = tagOf t) ->
  List.map tagOf (updFirst p f l) = List.map tagOf l.
Proof.
  intros Hf. induction l as [|t l IH]; simpl; [reflexivity|].
  destruct (p t); simpl; [now rewrite Hf | now rewrite IH].
Qed.

Lemma tagOf_assign (types : list TypeIR) (ofType : string) (f : TypeIR -> TypeIR) :
  Setter f -> List.map tagOf (assign types ofType f) = List.map tagOf types.
Proof.
  intros Hf. unfold assign. destruct (existsb (hasType ofType) types).
  - apply tagOf_updFirst. intros t. now apply tagOf_setter.
  - apply tagOf_updFirst. intros t. apply tagOf_assignIn.
Qed.

End Enrichment.

(** X1. The description never adds, removes or retags a candidate type:
    [getTypes] returns at least one node, and as many nodes, with the same
    type tags, as it returns for the same raw type with an empty
    description. *)
Theorem getTypes_tags :
  forall rawType description : string,
    Extract.getTypes rawType description <> [] /\
    List.map tagOf (Extract.getTypes rawType description) =
    List.map tagOf (Extract.getTypes rawType "").
Proof.
  intros rawType description.
  assert (List.map tagOf (Extract.getTypes rawType description) =
          List.map tagOf (Extract.getTypes rawType "")) as H.
  { apply (getTypes_enrich
             (fun types => List.map tagOf types =
                           List.map tagOf (Extract.getTypes rawType ""))).
    - reflexivity.
    - intros types ofType f _ Hf <-. now apply tagOf_assign. }
  split; [|exact H].
  intros E. rewrite E in H. simpl in H. symmetry in H.
  apply map_eq_nil in H. rewrite getTypes_empty in H.
  destruct (Str.includes rawType "array of" || Str.includes rawType "list of");
    [discriminate|].
  destruct (Str.includes rawType " or ").
  - apply map_eq_nil in H. now apply splitAux_nonempty in H.
  - destruct (String.eqb rawType "array_string"); [discriminate|].
    destruct (String.eqb rawType "array_object"); discriminate.
Qed.

(** X2. Array inference: for a raw type that says "array of" or "list of",
    whatever the description, [getTypes] returns exactly one array node
    with exactly one element type, the alias of the last word without its
    final "s"; the description can only enrich that element, and the array
    node itself carries no other key. *)
Theorem getTypes_array :
  forall rawType description : string,
    Str.includes rawType "array of" || Str.includes rawType "list of" = true ->
    exists startsWith possibleValues fields id,
      Extract.getTypes rawType description =
      [TNode "array"
         (Some [TNode (Extract.alias (Extract.elementTypeName rawType)) None
                      startsWith possibleValues fields id])
         None None None None].
Proof.
  intros rawType description Harr.
  set (t := Extract.alias (Extract.elementTypeName rawType)).
  apply (getTypes_enrich
           (fun types => exists sw pv fl i,
                types = [TNode "array" (Some [TNode t None sw pv fl i])
                               None None None None])).
  - rewrite getTypes_empty, Harr. now exists None, None, None, None.
  - intros types ofType f HofType Hf [sw [pv [fl [i ->]]]].
    clearbody t.
    destruct HofType as [-> | ->]; unfold Extract.assign; simpl.
    + destruct (String.eqb t "string"); simpl.
      * destruct Hf; simpl; eauto.
      * destruct (String.eqb t "array"); simpl; eauto.
    + destruct (String.eqb t "object"); simpl.
      * destruct Hf; simpl; eauto.
      * destruct (String.eqb t "array"); simpl; eauto.
Qed.

Lemma getTypes_array_witness :
  exists startsWith possibleValues fields id,
    Extract.getTypes "list of strings" "Tokens starting with **card_**" =
    [TNode "array"
       (Some [TNode (Extract.alias (Extract.elementTypeName "list of strings"))
                    None startsWith possibleValues fields id])
       None None None None].
Proof.
  apply (getTypes_array "list of strings" "Tokens starting with **card_**").
  reflexivity.
Defined.

(** X3. A description only enriches string and object nodes: when the types
    of the raw type hold neither a string nor an object node, also not as
    the element of an array, [getTypes] returns them as they are, whatever
    the description says. *)
Theorem getTypes_description_ignored :
  forall rawType description : string,
    Extract.findType (Extract.getTypes rawType "") "string" = None ->
    Extract.findType (Extract.getTypes rawType "") "object" = None ->
    Extract.getTypes rawType description = Extract.getTypes rawType "".
Proof.
  intros rawType description Hs Ho.
  rewrite getTypes_empty in *. unfold Extract.getTypes.
  match type of Hs with Extract.findType ?b _ = _ => set (base := b) in * end.
  cbv zeta. rewrite Hs, Ho. simpl.
  destruct (Re.search Extract.startsWithRe description);
    destruct (Re.search Extract.objectRefRe description); reflexivity.
Qed.

Lemma getTypes_description_ignored_witness :
  Extract.getTypes "array of integers"
    ("One of the following:" ++ nl ++ "- **1**" ++ nl ++
     "starting with **x**, see [Foo Object](ref:foo-object)")
  = Extract.getTypes "array of integers" "".
Proof.
  apply (getTypes_description_ignored "array of integers").
  - reflexivity.
  - reflexivity.
Defined.

(** ** The table of a parameters block *)

Section TypeTable.
Import Extractor.

Lemma getTypeTable_eq (block : Block.t) :
  getTypeTable block =
  mapM finishRow
       (fold_left fillCell (Block.data block) (repeat None (Block.rows block))).
Proof. reflexivity. Qed.

(** the header entries are skipped *)
Lemma fold_fillCell_cells (data : list (Loc * string)) :
  forall table,
    fold_left fillCell data table = fold_left fillCell (filter isCell data) table.
Proof.
  induction data as [|[[col|row col] value] data IH]; intros table; simpl.
  - reflexivity.
  - apply IH.
  - apply IH.
Qed.

Lemma setCell_at (pre post : Table) (o : option Extractor.Row.t)
  (col : nat) (value : string) :
  setCell (List.length pre) col value (pre ++ o :: post)%list =
  (pre ++ Some (Extractor.Row.set col value
                  (match o with
                   | Some r => r
                   | None => Extractor.Row.empty
                   end)) :: post)%list.
Proof.
  induction pre as [|x pre IH]; simpl; [reflexivity | now rewrite IH].
Qed.

Lemma fold_cellsFrom (rows : list (string * string * string)) :
  forall pre post : Table,
    fold_left fillCell (cellsFrom (List.length pre) rows)
              (pre ++ repeat None (List.length rows) ++ post)%list =
    (pre ++
     List.map (fun row : string * string * string =>
                 let '(name, type, description) := row in
                 Some (Extractor.Row.make (Some name) (Some type) (Some description)))
              rows ++ post)%list.
Proof.
  induction rows as [|[[name type] description] rows IH]; intros pre post.
  - reflexivity.
  - simpl cellsFrom. simpl repeat. simpl fold_left.
    change ((None :: repeat None (List.length rows)) ++ post)%list
      with (None :: (repeat None (List.length rows) ++ post))%list.
    rewrite !setCell_at. simpl.
    change (Extractor.Row.set 2 description
              (Extractor.Row.set 1 type
                 (Extractor.Row.set 0 name Extractor.Row.empty)))
      with (Extractor.Row.make (Some name) (Some type) (Some description)).
    replace (S (List.length pre))
      with (List.length
              (pre ++ [Some (Extractor.Row.make (Some name) (Some type)
                               (Some description))])%list)
      by (rewrite length_app; simpl; lia).
    replace (pre ++ Some (Extractor.Row.make (Some name) (Some type)
                            (Some description))
                 :: repeat None (List.length rows) ++ post)%list
      with ((pre ++ [Some (Extractor.Row.make (Some name) (Some type)
                             (Some description))])
            ++ repeat None (List.length rows) ++ post)%list
      by (now rewrite <- app_assoc).
    rewrite IH. now rewrite <- app_assoc.
Qed.

Lemma mapM_finishRow_rows (rows : list (string * string * string)) :
  mapM finishRow
       (List.map (fun row : string * string * string =>
                    let '(name, type, description) := row in
                    Some (Extractor.Row.make (Some name) (Some type) (Some description)))
                 rows) =
  Ok (List.map fieldOfRow rows).
Proof.
  induction rows as [|[[name type] description] rows IH]; simpl.
  - reflexivity.
  - now rewrite IH.
Qed.

End TypeTable.

(** X4. A table that holds, beside its header entries, the three cells of
    each of its rows, row by row, becomes one field per row, in the order
    of the rows: the name without its backticks, the types inferred from
    the type cell and the description cell, the description, and
    required = true. *)
Theorem getTypeTable_rows :
  forall (data : list (Loc * string)) (rows : list (string * string * string)),
    filter isCell data = cellsFrom 0 rows ->
    Extractor.getTypeTable (Block.make data (List.length rows)) =
    Ok (List.map fieldOfRow rows).
Proof.
  intros data rows H.
  rewrite getTypeTable_eq. simpl Block.data. simpl Block.rows.
  rewrite fold_fillCell_cells, H.
  pose proof (fold_cellsFrom rows [] []) as F. simpl in F.
  rewrite !app_nil_r in F. rewrite F.
  apply mapM_finishRow_rows.
Qed.

Lemma getTypeTable_rows_witness :
  Extractor.getTypeTable
    (Block.make
       [ (Header 0, "Field"); (Cell 0 0, "`id`"); (Cell 0 1, "string");
         (Header 1, "Type"); (Cell 0 2, "ID of the object.");
         (Cell 1 0, "amount"); (Cell 1 1, "float"); (Cell 1 2, "") ]
       (List.length [("`id`", "string", "ID of the object."); ("amount", "float", "")]))
  = Ok (List.map fieldOfRow
          [("`id`", "string", "ID of the object."); ("amount", "float", "")]).
Proof.
  apply (getTypeTable_rows
           [ (Header 0, "Field"); (Cell 0 0, "`id`"); (Cell 0 1, "string");
             (Header 1, "Type"); (Cell 0 2, "ID of the object.");
             (Cell 1 0, "amount"); (Cell 1 1, "float"); (Cell 1 2, "") ]
           [("`id`", "string", "ID of the object."); ("amount", "float", "")]).
  reflexivity.
Defined.

Section TypeTableCells.
Import Extractor.

Lemma setCell_nth (col : nat) (value : string) :
  forall (row : nat) (table : Table) (i : nat),
    nth_error (setCell row col value table) i =
    if Nat.eqb i row then
      Some (Some (Extractor.Row.set col value
                    (match nth_error table row with
                     | Some (Some r) => r
                     | _ => Extractor.Row.empty
                     end)))
    else match nth_error table i with
         | Some o => Some o
         | None => if Nat.ltb i row then Some None else None
         end.
Proof.
  induction row as [|row IH]; intros [|o table] [|i]; simpl; try reflexivity.
  - now destruct i.
  - now destruct (nth_error table i).
  - rewrite IH. simpl. destruct (Nat.eqb i row).
    + now destruct row.
    + now destruct i.
  - apply IH.
Qed.

Lemma setCell_length (row col : nat) (value : string) :
  forall table : Table,
    List.length table <= List.length (setCell row col value table).
Proof.
  induction row as [|row IH]; intros [|o table]; simpl; try lia.
  specialize (IH table). lia.
Qed.

Lemma Row_set_cases (col : nat) (value : string) (row : Extractor.Row.t) :
  (forall v, Extractor.Row.name (Extractor.Row.set col value row) = Some v ->
             (col = 0 /\ v = value) \/ Extractor.Row.name row = Some v) /\
  (forall v, Extractor.Row.type (Extractor.Row.set col value row) = Some v ->
             (col = 1 /\ v = value) \/ Extractor.Row.type row = Some v) /\
  (forall v, Extractor.Row.description (Extractor.Row.set col value row) = Some v ->
             (col = 2 /\ v = value) \/ Extractor.Row.description row = Some v).
Proof.
  destruct col as [|[|[|[|col]]]]; simpl; repeat split; intros v H;
    try (now right); left; split; congruence.
Qed.

Lemma setCell_cellsFromData (data : list (Loc * string)) (row col : nat)
  (value : string) (table : Table) :
  In (Cell row col, value) data ->
  cellsFromData data table ->
  cellsFromData data (setCell row col value table).
Proof.
  intros Hin Hinv i r Hi. rewrite setCell_nth in Hi.
  destruct (Nat.eqb i row) eqn:E.
  - apply Nat.eqb_eq in E. subst i. injection Hi as <-.
    set (old := match nth_error table row with
                | Some (Some r) => r
                | _ => Extractor.Row.empty
                end).
    assert ((forall v, Extractor.Row.name old = Some v -> In (Cell row 0, v) data) /\
            (forall v, Extractor.Row.type old = Some v -> In (Cell row 1, v) data) /\
            (forall v, Extractor.Row.description old = Some v -> In (Cell row 2, v) data))
      as [On [Ot Od]].
    { unfold old. destruct (nth_error table row) as [[r|]|] eqn:En.
      - apply (Hinv row r En).
      - repeat split; discriminate.
      - repeat split; discriminate. }
    destruct (Row_set_cases col value old) as [Hn [Ht Hd]].
    repeat split; intros v Hv.
    + destruct (Hn v Hv) as [[-> ->] | H]; [exact Hin | now apply On].
    + destruct (Ht v Hv) as [[-> ->] | H]; [exact Hin | now apply Ot].
    + destruct (Hd v Hv) as [[-> ->] | H]; [exact Hin | now apply Od].
  - destruct (nth_error table i) as [o|] eqn:En.
    + injection Hi as ->. now apply Hinv.
    + destruct (Nat.ltb i row); discriminate.
Qed.

Lemma fold_fillCell_cellsFromData (data : list (Loc * string)) :
  forall (entries : list (Loc * string)) (table : Table),
    incl entries data ->
    cellsFromData data table ->
    cellsFromData data (fold_left fillCell entries table) /\
    List.length table <= List.length (fold_left fillCell entries table).
Proof.
  induction entries as [|[[c|r c] v] entries IH]; intros table Hincl Hinv; simpl.
  - split; [exact Hinv | lia].
  - apply IH; [|exact Hinv]. intros x Hx. apply Hincl. now right.
  - assert (incl entries data) as Hincl'.
    { intros x Hx. apply Hincl. now right. }
    destruct (IH (setCell r c v table) Hincl') as [H1 H2].
    + apply setCell_cellsFromData; [|exact Hinv]. apply Hincl. now left.
    + split; [exact H1|]. pose proof (setCell_length r c v table). lia.
Qed.

Lemma mapM_finishRow_full (table : Table) :
  forall fields,
    mapM finishRow table = Ok fields ->
    List.length fields = List.length table /\
    Forall (fun o => exists n t d,
                o = Some (Extractor.Row.make (Some n) (Some t) (Some d))) table.
Proof.
  induction table as [|o table IH]; simpl; intros fields E.
  - injection E as <-. split; [reflexivity | constructor].
  - destruct (finishRow o) as [f|] eqn:Ef; simpl in E; [|discriminate].
    destruct (mapM finishRow table) as [fs|]; simpl in E; [|discriminate].
    injection E as <-. destruct (IH fs eq_refl) as [Hl Hall].
    split; [simpl; now rewrite Hl|]. constructor; [|exact Hall].
    destruct o as [[[n|] [t|] [d|]]|]; simpl in Ef; try discriminate. eauto.
Qed.

Lemma repeat_None_nth (n i : nat) (row : Extractor.Row.t) :
  nth_error (repeat (@None Extractor.Row.t) n) i = Some (Some row) -> False.
Proof.
  revert i. induction n as [|n IH]; intros [|i]; simpl; try discriminate.
  apply IH.
Qed.

End TypeTableCells.

(** X5. [getTypeTable] returns fields only for a complete table: when it
    does not throw, it returns at least as many fields as the block declares
    rows, and the data hold a name cell, a type cell and a description cell
    for the row of every field. *)
Theorem getTypeTable_complete :
  forall (block : Block.t) (fields : list Field.t),
    Extractor.getTypeTable block = Ok fields ->
    Block.rows block <= List.length fields /\
    forall i, i < List.length fields ->
              exists name type description,
                In (Cell i 0, name) (Block.data block) /\
                In (Cell i 1, type) (Block.data block) /\
                In (Cell i 2, description) (Block.data block).
Proof.
  intros block fields E. rewrite getTypeTable_eq in E.
  set (table := fold_left fillCell (Block.data block)
                          (repeat None (Block.rows block))) in E.
  assert (cellsFromData (Block.data block) (repeat None (Block.rows block)))
    as Hempty.
  { intros i row Hi. now apply repeat_None_nth in Hi. }
  destruct (fold_fillCell_cellsFromData (Block.data block) (Block.data block)
              (repeat None (Block.rows block)) (incl_refl _) Hempty)
    as [Hinv Hlen].
  fold table in Hinv, Hlen. rewrite repeat_length in Hlen.
  destruct (mapM_finishRow_full table fields E) as [Hl Hall].
  split; [lia|]. intros i Hi. rewrite Hl in Hi.
  destruct (nth_error table i) as [o|] eqn:En;
    [|apply nth_error_None in En; lia].
  rewrite Forall_forall in Hall.
  destruct (Hall o (nth_error_In _ _ En)) as [n [t [d ->]]].
  destruct (Hinv i _ En) as [Hn [Ht Hd]].
  exists n, t, d. repeat split; [apply Hn | apply Ht | apply Hd]; reflexivity.
Qed.

Lemma getTypeTable_complete_witness :
  1 <= List.length [fieldOfRow ("id", "string", "ID of the object.")] /\
  forall i, i < List.length [fieldOfRow ("id", "string", "ID of the object.")] ->
            exists name type description,
              In (Cell i 0, name)
                 [ (Cell 0 0, "id"); (Cell 0 1, "string");
                   (Cell 0 2, "ID of the object.") ] /\
              In (Cell i 1, type)
                 [ (Cell 0 0, "id"); (Cell 0 1, "string");
                   (Cell 0 2, "ID of the object.") ] /\
              In (Cell i 2, description)
                 [ (Cell 0 0, "id"); (Cell 0 1, "string");
                   (Cell 0 2, "ID of the object.") ].
Proof.
  apply (getTypeTable_complete
           (Block.make [ (Cell 0 0, "id"); (Cell 0 1, "string");
                         (Cell 0 2, "ID of the object.") ] 1)
           [fieldOfRow ("id", "string", "ID of the object.")]).
  vm_compute. reflexivity.
Defined.

(** a block that declares more rows than it has, and a row without its
    description *)
Example getTypeTable_missing_row :
  Extractor.getTypeTable
    (Block.make [ (Cell 0 0, "id"); (Cell 0 1, "string");
                  (Cell 0 2, "ID of the object.") ] 2) = Throw TypeError.
Proof. reflexivity. Qed.

Example getTypeTable_missing_cell :
  Extractor.getTypeTable
    (Block.make [ (Cell 0 0, "id"); (Cell 0 1, "string") ] 1) = Throw TypeError.
Proof. reflexivity. Qed.

(** ** What the Extractor drops, keeps and fails on *)

(** X6. A node without a parent that is not an object definition is
    dropped: an endpoint, an error list, a "Sequence" page, a webhook or a
    node of another type at the top of a page leaves [references] as it is
    and does not throw. *)
Theorem handleReference_without_parent :
  forall (fixes : Fixes) (product : Product.t) (reference : DocNode)
         (references : list Ref.t),
    type reference <> "basic" \/
    Str.includes (Extractor.remove Extractor.productSuffix (title reference))
                 "Sequence" = true \/
    Str.endsWith (Extractor.remove Extractor.productSuffix (title reference))
                 "Object" = false ->
    Extractor.handleReference fixes product reference None references
    = Ok references.
Proof.
  intros fixes product [ty ti sl ex bo bl ap cs] references H.
  rewrite handleReference_eq. cbv zeta. simpl in *.
  destruct (String.eqb ty "basic") eqn:Eb.
  - apply String.eqb_eq in Eb.
    destruct H as [H | [H | H]]; [contradiction | now rewrite H |].
    rewrite H. destruct (Str.includes _ "Sequence"); [reflexivity|].
    now destruct (Str.endsWith _ "Errors").
  - now destruct (String.eqb ty "endpoint").
Qed.

Lemma handleReference_without_parent_witness :
  Extractor.handleReference noFixes Pages.collect Pages.listPayments None
    [Pages.payment] = Ok [Pages.payment].
Proof.
  apply (handleReference_without_parent noFixes Pages.collect Pages.listPayments
           [Pages.payment]).
  left. discriminate.
Defined.

Section Counting.
Import Run.



End Counting.



(** X8. Types have no parent, requests and error enums have one: when the
    overlay overrides neither kinds nor parents, a Reference of a run is a
    type exactly when it has no parent. *)
Theorem parent_iff_not_type :
  forall (fixes : Fixes) (web : string -> Result Exn (list DocNode))
         (completion : list Run.Job) (references : list Ref.t) (r : Ref.t),
    (forall s p, fixes s = Some p ->
                 Patch.type p = None /\ Patch.parent p = None) ->
    Run.run fixes web completion = Ok references ->
    In r references ->
    (Ref.type r = KType <-> Ref.parent r = None).
Proof.
  intros fixes web completion references r Hfixes Hrun Hin.
  assert (forall s x, Ref.type (Patch.apply (fixes s) x) = Ref.type x /\
                      Ref.parent (Patch.apply (fixes s) x) = Ref.parent x) as Hf.
  { intros s x. unfold Patch.apply. destruct (fixes s) as [p|] eqn:E; [|auto].
    destruct (Hfixes s p E) as [H1 H2]. simpl. now rewrite H1, H2. }
  assert (Forall (fun x => Ref.type x = KType <-> Ref.parent x = None) references)
    as H.
  { revert Hrun. apply run_Forall.
    - intros pid n out. unfold Extractor.addType.
      destruct (blocks n) as [|[block|] ?]; intros E.
      + injection E as <-. constructor.
      + apply bind_Ok in E as [table [_ E]]. injection E as <-.
        constructor; [|constructor].
        rewrite (proj1 (Hf _ _)), (proj2 (Hf _ _)). simpl. tauto.
      + discriminate.
    - intros pid n parent. constructor; [|constructor].
      rewrite (proj1 (Hf _ _)), (proj2 (Hf _ _)). simpl.
      split; discriminate.
    - intros pid n parent out. unfold Extractor.addRequest.
      destruct (api n); [|discriminate].
      intros E. apply bind_Ok in E as [name [_ E]]. injection E as <-.
      constructor; [|constructor].
      rewrite (proj1 (Hf _ _)), (proj2 (Hf _ _)). simpl.
      split; discriminate. }
  rewrite Forall_forall in H. now apply H.
Qed.

Lemma parent_iff_not_type_witness :
  Ref.type Pages.walletRef = KType <-> Ref.parent Pages.walletRef = None.
Proof.
  apply (parent_iff_not_type noFixes Pages.web (Run.jobs Pages.products)
           [Pages.payment; Pages.walletRef] Pages.walletRef).
  - intros s p H. discriminate H.
  - vm_compute. reflexivity.
  - simpl. right. left. reflexivity.
Defined.

(** X9. The list of References only grows at its end: a call of
    [handleReference] that returns leaves every Reference already in the
    list in place, and what it pushes is what it pushes on the empty list,
    whatever the list holds. *)
Theorem handleReference_appends :
  forall (fixes : Fixes) (product : Product.t) (reference : DocNode)
         (parent : option DocNode) (references result : list Ref.t),
    Extractor.handleReference fixes product reference parent references
    = Ok result ->
    exists pushed,
      result = (references ++ pushed)%list /\
      forall others,
        Extractor.handleReference fixes product reference parent others
        = Ok (others ++ pushed)%list.
Proof.
  intros fixes product reference parent references result E.
  pose proof (appendOnly_handleReference fixes product reference parent) as A.
  destruct (appendOnly_Ok _ A _ _ E) as [pushed [E0 ->]].
  exists pushed. split; [reflexivity|].
  intros others. now apply appendOnly_from.
Qed.

Lemma handleReference_appends_witness :
  exists pushed,
    [Pages.walletRef; Pages.payment] = ([Pages.walletRef] ++ pushed)%list /\
    forall others,
      Extractor.handleReference noFixes Pages.collect Pages.paymentObject None
        others = Ok (others ++ pushed)%list.
Proof.
  apply (handleReference_appends noFixes Pages.collect Pages.paymentObject None
           [Pages.walletRef] [Pages.walletRef; Pages.payment]).
  vm_compute. reflexivity.
Defined.

Section Failure.
Import Extractor Run.

Lemma forEach_throws {A} (step : A -> References -> Result Exn References)
  (x : A) (e : Exn) :
  (forall references, step x references = Throw e) ->
  forall xs references,
    In x xs -> exists e', forEach step xs references = Throw e'.
Proof.
  intros Hx. induction xs as [|y xs IH]; intros references Hin; simpl.
  - contradiction.
  - destruct (step y references) as [r|e'] eqn:E; simpl; [|eauto].
    destruct Hin as [-> | Hin]; [|now apply IH].
    rewrite Hx in E. discriminate.
Qed.

End Failure.

(** X10. One page that fails makes the run fail: when the fetch of a page
    fails, or the extraction of one of its documents throws, the run ends
    on an exception whatever the other pages hold, and no artifact is
    written. *)
Theorem run_fails_with_a_page :
  forall (fixes : Fixes) (web : string -> Result Exn (list DocNode))
         (completion : list Run.Job) (job : Run.Job) (e : Exn),
    In job completion ->
    Run.arrive fixes web job [] = Throw e ->
    exists e', Run.run fixes web completion = Throw e'.
Proof.
  intros fixes web completion job e Hin He. unfold Run.run.
  apply (forEach_throws (Run.arrive fixes web) job e); [|exact Hin].
  intros references. rewrite (appendOnly_arrive fixes web job references).
  now rewrite He.
Qed.

Lemma run_fails_with_a_page_witness :
  exists e',
    Run.run noFixes Pages.web
      [ (Pages.collect, "https://docs.rapyd.net/collect/reference");
        (Pages.wallet, "https://docs.rapyd.net/wallet/unknown") ] = Throw e'.
Proof.
  apply (run_fails_with_a_page noFixes Pages.web
           [ (Pages.collect, "https://docs.rapyd.net/collect/reference");
             (Pages.wallet, "https://docs.rapyd.net/wallet/unknown") ]
           (Pages.wallet, "https://docs.rapyd.net/wallet/unknown")
           (ErrorMsg "request failed")).
  - simpl. right. left. reflexivity.
  - vm_compute. reflexivity.
Defined.

(** ** Names and paths *)

Section Names.
Import Extractor Re.

Lemma concat_nil_cons (l : list string) :
  String.concat "" ("" :: l) = String.concat "" l.
Proof. now rewrite concat_cons. Qed.

Lemma consumed_one (c : ascii) (r : string) :
  length (String c r) - length r - 1 = 0.
Proof. change (length (String c r)) with (S (length r)). lia. Qed.

(** removing the characters of a class keeps the other ones *)
Lemma remove_class (m : Matcher unit) (drop : ascii -> bool) :
  (forall c r, m (String c r) = if drop c then Some (tt, r) else None) ->
  forall s, remove m s = keepChars (fun c => negb (drop c)) s.
Proof.
  intros Hm. unfold remove, replaceAll.
  induction s as [|c r IH]; [reflexivity|].
  rewrite scan_cons, Hm. simpl keepChars. destruct (drop c); simpl negb; cbv iota.
  - rewrite consumed_one, map_cons, concat_nil_cons. exact IH.
  - rewrite map_cons, concat_cons. simpl. now rewrite IH.
Qed.

Lemma spaceOrDash_eq (c : ascii) (r : string) :
  spaceOrDash (String c r) =
  if Str.isSpace c || Ascii.eqb c "-" then Some (tt, r) else None.
Proof.
  unfold spaceOrDash, alt, seq, one, ret, lit. rewrite startsWith_char.
  destruct (Str.isSpace c); [reflexivity|]. cbv beta iota. cbn [orb].
  change (Str.drop (length "-") (String c r)) with r.
  rewrite (Ascii.eqb_sym "-" c). now destruct (Ascii.eqb c "-").
Qed.

Lemma keepChars_get (keep : ascii -> bool) (s : string) :
  forall i c, String.get i (keepChars keep s) = Some c -> keep c = true.
Proof.
  induction s as [|x s IH]; simpl; intros i c H.
  - destruct i; discriminate.
  - destruct (keep x) eqn:E; [|now apply (IH i)].
    destruct i as [|i]; simpl in H; [now injection H as <- | now apply (IH i)].
Qed.

Lemma get_append (a b : string) (i : nat) (c : ascii) :
  String.get i (a ++ b) = Some c ->
  String.get i a = Some c \/ exists j, String.get j b = Some c.
Proof.
  revert i. induction a as [|x a IH]; simpl; intros i H.
  - right. now exists i.
  - destruct i as [|i]; [now left | now apply IH].
Qed.

(** the final marker is removed where the title ends, and only there *)
Lemma drop_empty (n : nat) (s : string) : Str.drop n s = "" -> length s <= n.
Proof.
  revert s. induction n as [|n IH]; intros [|c s]; simpl; intros H;
    try lia; try discriminate.
  specialize (IH s H). lia.
Qed.

Lemma startsWith_refl (s : string) : Str.startsWith s s = true.
Proof.
  induction s as [|c s IH]; simpl; [reflexivity|].
  now rewrite Ascii.eqb_refl, IH.
Qed.

Lemma drop_all (s : string) : Str.drop (length s) s = "".
Proof. induction s; simpl; auto. Qed.

Lemma scan_skip_all {A} (m : Matcher A) (s : string) :
  scan m (length s) s = [].
Proof. induction s as [|c s IH]; simpl; [reflexivity | exact IH]. Qed.

Lemma remove_spaceOrFinal (m0 : ascii) (mr b : string) :
  Str.isSpace m0 = false ->
  remove (spaceOrFinal (String m0 mr)) (b ++ String m0 mr) = keepChars notSpace b.
Proof.
  intros Hm0. set (marker := String m0 mr). unfold remove, replaceAll.
  induction b as [|c r IH].
  - simpl append. unfold marker at 2. rewrite scan_cons. fold marker.
    unfold spaceOrFinal, alt, seq, one, ret, lit, eos.
    unfold marker at 1. rewrite Hm0. fold marker.
    rewrite startsWith_refl, drop_all.
    replace (length marker - length "" - 1) with (length mr)
      by (unfold marker; change (length (String m0 mr)) with (S (length mr));
          change (length "") with 0; lia).
    now rewrite scan_skip_all.
  - change (String c r ++ marker) with (String c (r ++ marker)).
    rewrite scan_cons.
    assert (spaceOrFinal marker (String c (r ++ marker)) =
            if Str.isSpace c then Some (tt, r ++ marker) else None) as ->.
    { unfold spaceOrFinal, alt, seq, one, ret, lit, eos.
      destruct (Str.isSpace c); [reflexivity|].
      destruct (Str.startsWith (String c (r ++ marker)) marker); [|reflexivity].
      destruct (Str.drop (length marker) (String c (r ++ marker))) eqn:Ed;
        [|reflexivity].
      apply drop_empty in Ed.
      change (length (String c (r ++ marker))) with (S (length (r ++ marker))) in Ed.
      rewrite length_append in Ed. lia. }
    simpl keepChars. unfold notSpace at 1. destruct (Str.isSpace c); simpl negb;
      cbv iota.
    + rewrite consumed_one, map_cons, concat_nil_cons. exact IH.
    + rewrite map_cons, concat_cons. simpl. now rewrite IH.
Qed.

End Names.

(** X11. A request name is an identifier ending in "Request": when
    [requestName] does not throw, the name it derives from a title ends
    with "Request" and holds no whitespace and no hyphen. *)
Theorem requestName_shape :
  forall title name : string,
    Extractor.requestName title = Ok name ->
    (exists base, name = base ++ "Request") /\
    forall i c, String.get i name = Some c ->
                Str.isSpace c = false /\ c <> "-"%char.
Proof.
  intros title name E. unfold Extractor.requestName in E.
  apply bind_Ok in E as [segments [_ E]]. injection E as <-.
  rewrite (remove_class Extractor.spaceOrDash
             (fun c => Str.isSpace c || Ascii.eqb c "-") spaceOrDash_eq).
  split; [eauto|]. intros i c H.
  assert (notSpaceOrDash c = true) as Hc.
  { apply get_append in H as [H | [j H]].
    - now apply keepChars_get in H.
    - do 7 (destruct j as [|j]; [injection H as <-; reflexivity|]).
      destruct j; discriminate. }
  unfold notSpaceOrDash in Hc. apply negb_true_iff, orb_false_iff in Hc as [Hs Hd].
  split; [exact Hs | now apply Ascii.eqb_neq].
Qed.

Lemma requestName_shape_witness :
  (exists base, "ListEwalletContactsRequest" = base ++ "Request") /\
  forall i c, String.get i "ListEwalletContactsRequest" = Some c ->
              Str.isSpace c = false /\ c <> "-"%char.
Proof.
  apply (requestName_shape "list e-wallet contacts" "ListEwalletContactsRequest").
  reflexivity.
Defined.

(** X12. The name of a type is its title without the final "Object" and
    without whitespace, and the name of an error enum is its title without
    the final "Errors" and without whitespace, followed by "Error"; an
    "Object" or "Errors" elsewhere in the title stays. *)
Theorem type_and_enum_names :
  forall base : string,
    Extractor.remove (Extractor.spaceOrFinal "Object") (base ++ "Object") =
    keepChars notSpace base /\
    Extractor.remove (Extractor.spaceOrFinal "Errors") (base ++ "Errors") ++ "Error" =
    keepChars notSpace base ++ "Error".
Proof.
  intros base. split.
  - now apply (remove_spaceOrFinal "O" "bject").
  - now rewrite (remove_spaceOrFinal "E" "rrors").
Qed.

Example type_name_object_object :
  Extractor.remove (Extractor.spaceOrFinal "Object") "Object Storage Object"
  = "ObjectStorage".
Proof. reflexivity. Qed.

Section BraceAgain.
Import Extractor Re.

Lemma isWord_not_colon (c : ascii) : Str.isWord c = true -> Ascii.eqb c ":" = false.
Proof.
  intros H. destruct (Ascii.eqb c ":") eqn:E; [|reflexivity].
  apply Ascii.eqb_eq in E. subst c. discriminate H.
Qed.

Lemma bracePath_fixed (path : string) :
  noColonParam path = true -> bracePath path = path.
Proof.
  induction path as [|c r IH]; simpl; intros H; [reflexivity|].
  apply andb_true_iff in H as [Hc Hr].
  rewrite bracePath_cons_char; [now rewrite (IH Hr)|].
  rewrite colonParam_eq. destruct (Ascii.eqb c ":"); [|reflexivity].
  simpl in Hc. apply negb_true_iff in Hc. now apply many1_startsWithWord.
Qed.

Lemma noColonParam_word_run (name rest : string) :
  allWord name = true -> noColonParam rest = true ->
  noColonParam (name ++ rest) = true.
Proof.
  intros Hw Hr. induction name as [|c name IH]; simpl in *; [exact Hr|].
  apply andb_true_iff in Hw as [Hc Hw].
  now rewrite (isWord_not_colon c Hc), (IH Hw).
Qed.

Lemma Braced_noColonParam (path out : string) :
  Braced path out ->
  noColonParam out = true /\
  (startsWithWord path = false -> startsWithWord out = false).
Proof.
  induction 1 as [| name rest out Hne Hw Hr _ [IH1 IH2]
                  | c rest out Hc _ [IH1 IH2]].
  - auto.
  - split; [|reflexivity].
    change ("{" ++ name ++ "}" ++ out) with (String "{" (name ++ String "}" out)).
    simpl noColonParam. apply noColonParam_word_run; [exact Hw|].
    simpl. exact IH1.
  - split; [|intros H; exact H].
    simpl. rewrite IH1, andb_true_r. apply negb_true_iff.
    destruct Hc as [Hc | Hc].
    + apply Ascii.eqb_neq in Hc. now rewrite Hc.
    + now rewrite (IH2 Hc), andb_false_r.
Qed.

End BraceAgain.

(** X13. Normalizing a path twice changes nothing more: a path in which no
    colon is followed by a word character, such as a path already written
    with braces, is returned as it is, and the path [bracePath] returns is
    such a path. *)
Theorem bracePath_idempotent :
  forall path : string,
    (noColonParam path = true -> Extractor.bracePath path = path) /\
    noColonParam (Extractor.bracePath path) = true /\
    Extractor.bracePath (Extractor.bracePath path) = Extractor.bracePath path.
Proof.
  intros path.
  pose proof (proj1 (Braced_noColonParam _ _ (bracePath_Braced path))) as H.
  split; [apply bracePath_fixed|]. split; [exact H|].
  now apply bracePath_fixed.
Qed.

Lemma bracePath_idempotent_witness :
  Extractor.bracePath "/v1/customers/{customer}" = "/v1/customers/{customer}".
Proof.
  apply (proj1 (bracePath_idempotent "/v1/customers/{customer}")).
  reflexivity.
Defined.

Example bracePath_mixed :
  Extractor.bracePath "/v1/{wallet}/contacts/:contact/compliance::1"
  = "/v1/{wallet}/contacts/{contact}/compliance:{1}".
Proof. reflexivity. Qed.

(** ** The fields of an emitted shape *)

Section Merging.
Import Emit Extract.






End Merging.



Example merge_three_rendered :
  List.map (Emit.property [])
    (Emit.values
       (Emit.uniqueFieldsOf
          [ Field.make "id" [plain "string"] true "In the path.";
            Field.make "limit" [plain "number"] false "";
            Field.make "id" [plain "string"] true "In the body.";
            Field.make "id" [plain "number"] false "In the query." ]))
  = [ "  /**" ++ nl ++
      "   * In the path." ++ nl ++
      "   * In the body." ++ nl ++
      "   * In the query." ++ nl ++
      "   */" ++ nl ++
      "  id?: string | string | number;" ++ nl;
      "  limit?: number;" ++ nl ].
Proof. vm_compute. reflexivity. Qed.

Section PropertyNames.
Import Emit Extract.








End PropertyNames.




(** a field whose name is an array index comes first *)
Example property_order_index :
  List.map Field.name
    (Emit.values
       (Emit.uniqueFieldsOf
          [ Field.make "b" [plain "number"] true "";
            Field.make "10" [plain "string"] true "";
            Field.make "2" [plain "number"] true "";
            Field.make "01" [plain "number"] true "" ]))
  = ["2"; "10"; "b"; "01"].
Proof. vm_compute. reflexivity. Qed.

Section Imports.
Import Emit.


End Imports.


(** ** From extraction to emission *)

Section Declarations.
Import Extractor Run.


End Declarations.



Section FunctionNames.

Lemma take_append (a b : string) : Str.take (length a) (a ++ b) = a.
Proof. induction a as [|c a IH]; simpl; [now destruct b | now rewrite IH]. Qed.

Lemma drop_append (a b : string) : Str.drop (length a) (a ++ b) = b.
Proof. induction a as [|c a IH]; simpl; [reflexivity | exact IH]. Qed.

Lemma endsWith_append (a b : string) : Str.endsWith (a ++ b) b = true.
Proof.
  unfold Str.endsWith. rewrite length_append.
  replace (length a + length b - length b) with (length a) by lia.
  rewrite drop_append, String.eqb_refl.
  apply andb_true_iff. split; [apply Nat.leb_le; lia | reflexivity].
Qed.

End FunctionNames.

(** X19. The emitter takes off the suffix the extractor put on: the
    function name of a request named base ++ "Request" is base with its
    first letter lower-cased, and [functionNameOf] throws when base is
    empty, as for a request whose title holds only hyphens. *)
Theorem functionName_of_requestName :
  forall base : string,
    Emit.functionNameOf (base ++ "Request") =
    match base with
    | EmptyString => Throw TypeError
    | String c rest => Ok (String (Str.lowerChar c) rest)
    end.
Proof.
  intros base. unfold Emit.functionNameOf.
  rewrite endsWith_append, length_append.
  replace (length base + length "Request" - length "Request") with (length base)
    by lia.
  now rewrite take_append.
Qed.

Example requestName_hyphens :
  Extractor.requestName "- -" = Ok "Request" /\
  Emit.functionNameOf "Request" = Throw TypeError.
Proof. split; reflexivity. Qed.

(** ** The parameters of a path, from the documentation to the request *)

Section Scanning.
Import Re.

(** a stretch of text the pattern cannot start in is passed over, and a
    match is taken whole *)
Lemma replaceAll_text {A} (m : Matcher A) (f : A -> string) (bad : ascii -> bool) :
  (forall c r, bad c = false -> m (String c r) = None) ->
  forall text rest,
    noneOf bad text = true ->
    replaceAll m f (text ++ rest) = text ++ replaceAll m f rest.
Proof.
  intros Hm. unfold replaceAll.
  induction text as [|c text IH]; intros rest H; [reflexivity|].
  simpl in H. apply andb_true_iff in H as [Hc H]. apply negb_true_iff in Hc.
  change (String c text ++ rest) with (String c (text ++ rest)).
  rewrite scan_cons, (Hm c _ Hc), map_cons, concat_cons. simpl.
  now rewrite IH.
Qed.

Lemma matchAll_text {A} (m : Matcher A) (bad : ascii -> bool) :
  (forall c r, bad c = false -> m (String c r) = None) ->
  forall text rest,
    noneOf bad text = true ->
    matchAll m (text ++ rest) = matchAll m rest.
Proof.
  intros Hm. unfold matchAll.
  induction text as [|c text IH]; intros rest H; [reflexivity|].
  simpl in H. apply andb_true_iff in H as [Hc H]. apply negb_true_iff in Hc.
  change (String c text ++ rest) with (String c (text ++ rest)).
  rewrite scan_cons, (Hm c _ Hc). simpl. now apply IH.
Qed.

Lemma scan_token {A} (m : Matcher A) (c : ascii) (t rest : string) (x : A) :
  m (String c (t ++ rest)) = Some (x, rest) ->
  scan m 0 (String c (t ++ rest)) = inr x :: scan m 0 rest.
Proof.
  intros E. rewrite scan_cons, E.
  replace (length (String c (t ++ rest)) - length rest - 1) with (length t)
    by (change (length (String c (t ++ rest))) with (S (length (t ++ rest)));
        rewrite length_append; lia).
  now rewrite scan_skip.
Qed.

Lemma replaceAll_token {A} (m : Matcher A) (f : A -> string)
  (c : ascii) (t rest : string) (x : A) :
  m (String c (t ++ rest)) = Some (x, rest) ->
  replaceAll m f (String c (t ++ rest)) = f x ++ replaceAll m f rest.
Proof.
  intros E. unfold replaceAll.
  now rewrite (scan_token m c t rest x E), map_cons, concat_cons.
Qed.

Lemma matchAll_token {A} (m : Matcher A) (c : ascii) (t rest : string) (x : A) :
  m (String c (t ++ rest)) = Some (x, rest) ->
  matchAll m (String c (t ++ rest)) = x :: matchAll m rest.
Proof.
  intros E. unfold matchAll. now rewrite (scan_token m c t rest x E).
Qed.

End Scanning.

Section PathPieces.
Import Extractor Re.

Lemma colonParam_text (c : ascii) (r : string) :
  isColon c = false -> colonParam (String c r) = None.
Proof. intros H. rewrite colonParam_eq. unfold isColon in H. now rewrite H. Qed.

Lemma braceParam_text (c : ascii) (r : string) :
  isOpen c = false -> Emit.braceParam (String c r) = None.
Proof.
  intros H. unfold Emit.braceParam, seq, lit. rewrite startsWith_char.
  unfold isOpen in H. rewrite Ascii.eqb_sym in H. now rewrite H.
Qed.

Lemma hole_text (c : ascii) (r : string) :
  isOpen c = false -> lit "{}" (String c r) = None.
Proof.
  intros H. unfold lit.
  change (Str.startsWith (String c r) "{}")
    with (Ascii.eqb "{" c && Str.startsWith r "}").
  unfold isOpen in H. now rewrite (Ascii.eqb_sym "{" c), H.
Qed.

Lemma nameOK_inv (name : string) :
  nameOK name = true -> name <> "" /\ allWord name = true.
Proof.
  unfold nameOK. intros H. apply andb_true_iff in H as [H1 H2].
  split; [|exact H2]. intros ->. discriminate H1.
Qed.

Lemma colonParam_token (name rest : string) :
  nameOK name = true -> startsWithWord rest = false ->
  colonParam (String ":" (name ++ rest)) = Some (name, rest).
Proof.
  intros Hn Hr. apply nameOK_inv in Hn as [Hne Hw].
  rewrite colonParam_eq. simpl. unfold many1.
  rewrite (span_word_run name rest Hw Hr). now destruct name.
Qed.

Lemma braceParam_token (name rest : string) :
  nameOK name = true ->
  Emit.braceParam (String "{" ((name ++ "}") ++ rest)) = Some (name, rest).
Proof.
  intros Hn. apply nameOK_inv in Hn as [Hne Hw].
  unfold Emit.braceParam, seq, lit, ret. rewrite startsWith_char. simpl Ascii.eqb.
  cbv iota. change (Str.drop (length "{") (String "{" ((name ++ "}") ++ rest)))
    with ((name ++ "}") ++ rest).
  rewrite append_assoc'. unfold many1.
  rewrite (span_word_run name ("}" ++ rest) Hw eq_refl).
  destruct name as [|c name]; [congruence|]. reflexivity.
Qed.

Lemma noneOf_word (name : string) :
  allWord name = true -> noneOf isColon name = true.
Proof.
  induction name as [|c name IH]; simpl; [reflexivity|]. intros H.
  apply andb_true_iff in H as [Hc H]. unfold isColon at 1.
  now rewrite (isWord_not_colon c Hc), (IH H).
Qed.

Lemma noneOf_append (bad : ascii -> bool) (a b : string) :
  noneOf bad (a ++ b) = noneOf bad a && noneOf bad b.
Proof.
  induction a as [|c a IH]; simpl; [reflexivity|].
  now rewrite IH, andb_assoc.
Qed.

(** the Extractor writes every parameter of the pieces in braces *)
Lemma bracePath_documented (pieces : list Piece) :
  wellFormed pieces = true -> bracePath (documented pieces) = braced pieces.
Proof.
  induction pieces as [|[text|name|name] rest IH]; simpl; intros H.
  - reflexivity.
  - apply andb_true_iff in H as [H Hr]. apply andb_true_iff in H as [Hc _].
    unfold bracePath in *.
    rewrite (replaceAll_text colonParam _ isColon colonParam_text _ _ Hc).
    now rewrite (IH Hr).
  - apply andb_true_iff in H as [H Hr]. apply andb_true_iff in H as [Hn Hs].
    apply negb_true_iff in Hs. unfold bracePath in *.
    rewrite (replaceAll_token colonParam _ ":" name (documented rest) name
               (colonParam_token name _ Hn Hs)).
    rewrite (IH Hr). now rewrite !append_assoc'.
  - apply andb_true_iff in H as [Hn Hr].
    destruct (nameOK_inv name Hn) as [_ Hw]. unfold bracePath in *.
    replace (String "{" (name ++ String "}" (documented rest)))
      with (String "{" (name ++ "}") ++ documented rest)
      by (simpl; now rewrite append_assoc').
    rewrite (replaceAll_text colonParam _ isColon colonParam_text).
    + rewrite (IH Hr). simpl. now rewrite append_assoc'.
    + simpl. rewrite noneOf_append, (noneOf_word name Hw). reflexivity.
Qed.

(** the Emitter finds the parameters of the braced path, and leaves a
    [{}] for each *)
Lemma braceParam_braced (pieces : list Piece) :
  wellFormed pieces = true ->
  matchAll Emit.braceParam (braced pieces) = names pieces /\
  replaceAll Emit.braceParam (fun _ => "{}") (braced pieces) = holes pieces.
Proof.
  induction pieces as [|[text|name|name] rest IH]; simpl; intros H.
  - split; reflexivity.
  - apply andb_true_iff in H as [H Hr]. apply andb_true_iff in H as [_ Ho].
    destruct (IH Hr) as [IH1 IH2]. split.
    + now rewrite (matchAll_text Emit.braceParam isOpen braceParam_text _ _ Ho).
    + rewrite (replaceAll_text Emit.braceParam _ isOpen braceParam_text _ _ Ho).
      now rewrite IH2.
  - apply andb_true_iff in H as [H Hr]. apply andb_true_iff in H as [Hn _].
    destruct (IH Hr) as [IH1 IH2].
    change (String "{" (name ++ String "}" (braced rest)))
      with (String "{" (name ++ "}" ++ braced rest)).
    rewrite <- append_assoc'. split.
    + rewrite (matchAll_token Emit.braceParam "{" (name ++ "}") (braced rest) name
                 (braceParam_token name _ Hn)).
      now rewrite IH1.
    + rewrite (replaceAll_token Emit.braceParam _ "{" (name ++ "}") (braced rest)
                 name (braceParam_token name _ Hn)).
      now rewrite IH2.
  - apply andb_true_iff in H as [Hn Hr].
    destruct (IH Hr) as [IH1 IH2].
    change (String "{" (name ++ String "}" (braced rest)))
      with (String "{" (name ++ "}" ++ braced rest)).
    rewrite <- append_assoc'. split.
    + rewrite (matchAll_token Emit.braceParam "{" (name ++ "}") (braced rest) name
                 (braceParam_token name _ Hn)).
      now rewrite IH1.
    + rewrite (replaceAll_token Emit.braceParam _ "{" (name ++ "}") (braced rest)
                 name (braceParam_token name _ Hn)).
      now rewrite IH2.
Qed.


End PathPieces.

Section ShorthandRequest.
Import Re.

Variable V : Type.
Variable toText : V -> string.
Variable encodeURIComponent : string -> string.

Lemma substitute_text (text rest : string) (values : list V) :
  noneOf isOpen text = true ->
  Request.substitute V toText encodeURIComponent
    (scan (lit "{}") 0 (text ++ rest)) values =
  let (path, left) :=
    Request.substitute V toText encodeURIComponent
      (scan (lit "{}") 0 rest) values in
  (text ++ path, left).
Proof.
  induction text as [|c text IH]; simpl noneOf; intros H.
  - simpl append. now destruct (Request.substitute _ _ _ _ _).
  - apply andb_true_iff in H as [Hc H]. apply negb_true_iff in Hc.
    change (String c text ++ rest) with (String c (text ++ rest)).
    rewrite scan_cons, (hole_text c _ Hc). simpl Request.substitute.
    rewrite (IH H).
    destruct (Request.substitute V toText encodeURIComponent
                (scan (lit "{}") 0 rest) values) as [p l].
    reflexivity.
Qed.


Lemma skipn_tl {A} (n : nat) (l : list A) : skipn (S n) l = skipn n (tl l).
Proof. destruct l; simpl; [now destruct n | reflexivity]. Qed.

Lemma substitute_holes (pieces : list Piece) :
  plainText pieces = true ->
  forall values,
    Request.substitute V toText encodeURIComponent
      (scan (lit "{}") 0 (holes pieces)) values =
    (filled (Request.encoded V toText encodeURIComponent) pieces values,
     skipn (List.length (names pieces)) values).
Proof.
  assert (forall rest values,
             (forall vs,
                 Request.substitute V toText encodeURIComponent
                   (scan (lit "{}") 0 (holes rest)) vs =
                 (filled (Request.encoded V toText encodeURIComponent) rest vs,
                  skipn (List.length (names rest)) vs)) ->
             Request.substitute V toText encodeURIComponent
               (scan (lit "{}") 0 ("{}" ++ holes rest)) values =
             (Request.encoded V toText encodeURIComponent (hd_error values) ++
              filled (Request.encoded V toText encodeURIComponent) rest (tl values),
              skipn (S (List.length (names rest))) values)) as Hole.
  { intros rest values IH.
    change ("{}" ++ holes rest) with (String "{" ("}" ++ holes rest)).
    rewrite (scan_token (lit "{}") "{" "}" (holes rest) tt eq_refl).
    simpl Request.substitute. rewrite skipn_tl.
    destruct values as [|v values]; simpl Request.shift; cbv iota;
      rewrite IH; reflexivity. }
  induction pieces as [|[text|name|name] rest IH]; simpl plainText; intros H values.
  - reflexivity.
  - apply andb_true_iff in H as [Ht Hr]. simpl holes.
    rewrite (substitute_text _ _ _ Ht), (IH Hr). reflexivity.
  - apply Hole. intros vs. now apply IH.
  - apply Hole. intros vs. now apply IH.
Qed.

Lemma substitute_without_hole (path : string) (values : list V) :
  Str.includes path "{}" = false ->
  Request.substitute V toText encodeURIComponent (scan (lit "{}") 0 path) values
  = (path, values).
Proof.
  unfold Str.includes. induction path as [|c r IH]; [reflexivity|].
  unfold Str.indexOf; fold Str.indexOf.
  destruct (Str.startsWith (String c r) "{}") eqn:E; [discriminate|].
  intros H. rewrite scan_cons. unfold lit at 1. rewrite E.
  simpl Request.substitute. rewrite IH; [reflexivity|].
  now destruct (Str.indexOf r "{}").
Qed.

Lemma shorthandRequest_eq (method path : string) (values : list V) :
  Request.shorthandRequest V toText encodeURIComponent method path values =
  let (path', left) :=
    Request.substitute V toText encodeURIComponent (scan (lit "{}") 0 path) values in
  (method, path', hd_error left).
Proof.
  unfold Request.shorthandRequest.
  destruct (Str.includes path "{}") eqn:E; [reflexivity|].
  now rewrite (substitute_without_hole path values E).
Qed.


End ShorthandRequest.

(** X20. The parameters of a documented path reach the emitted function:
    for a path whose literal text holds no colon and no opening brace,
    [bracePath] writes every parameter in braces, whichever style the
    documentation used, and [generateAPI] then finds the names of the
    parameters in the order of the path and leaves one [{}] for each. *)
Theorem path_parameters_emitted :
  forall pieces : list Piece,
    wellFormed pieces = true ->
    Extractor.bracePath (documented pieces) = braced pieces /\
    Re.matchAll Emit.braceParam (Extractor.bracePath (documented pieces))
    = names pieces /\
    Re.replaceAll Emit.braceParam (fun _ => "{}")
      (Extractor.bracePath (documented pieces))
    = holes pieces.
Proof.
  intros pieces H. rewrite (bracePath_documented pieces H).
  split; [reflexivity|]. now apply braceParam_braced.
Qed.

Lemma path_parameters_emitted_witness :
  Extractor.bracePath (documented paymentPieces) = braced paymentPieces /\
  Re.matchAll Emit.braceParam (Extractor.bracePath (documented paymentPieces))
  = names paymentPieces /\
  Re.replaceAll Emit.braceParam (fun _ => "{}")
    (Extractor.bracePath (documented paymentPieces))
  = holes paymentPieces.
Proof.
  apply (path_parameters_emitted paymentPieces). reflexivity.
Defined.

(** X21. [shorthandRequest] fills the holes of the path from left to right
    with the encoded values, one value per hole and ["undefined"] once the
    values have run out, and passes the value after those as the body; a
    path without holes is passed as it is, with the first value as the
    body. *)
Theorem shorthandRequest_fills :
  forall (V : Type) (toText : V -> string) (encodeURIComponent : string -> string)
         (pieces : list Piece) (method : string) (values : list V),
    plainText pieces = true ->
    Request.shorthandRequest V toText encodeURIComponent method
      (holes pieces) values =
    (method,
     filled (Request.encoded V toText encodeURIComponent) pieces values,
     hd_error (skipn (List.length (names pieces)) values)).
Proof.
  intros V toText encodeURIComponent pieces method values H.
  rewrite shorthandRequest_eq, (substitute_holes _ _ _ pieces H). reflexivity.
Qed.

Lemma shorthandRequest_fills_witness :
  Request.shorthandRequest string (fun s => s) stubEncode "GET"
    (holes paymentPieces) ["cus_1"; "pay 2"; "{}"] =
  ("GET",
   filled (Request.encoded string (fun s => s) stubEncode) paymentPieces
          ["cus_1"; "pay 2"; "{}"],
   hd_error (skipn (List.length (names paymentPieces)) ["cus_1"; "pay 2"; "{}"])).
Proof.
  apply (shorthandRequest_fills string (fun s => s) stubEncode paymentPieces
           "GET" ["cus_1"; "pay 2"; "{}"]).
  reflexivity.
Defined.

Example shorthandRequest_values :
  Request.shorthandRequest string (fun s => s) stubEncode "GET"
    "/v1/customers/{}/payments/{}" ["cus_1"; "pay 2"; "{}"]
  = ("GET", "/v1/customers/cus_1/payments/pay%202", Some "{}") /\
  Request.shorthandRequest string (fun s => s) stubEncode "GET"
    "/v1/customers/{}/payments/{}" ["cus_1"]
  = ("GET", "/v1/customers/cus_1/payments/undefined", None) /\
  Request.shorthandRequest string (fun s => s) stubEncode "POST"
    "/v1/customers" ["{}"]
  = ("POST", "/v1/customers", Some "{}").
Proof. repeat split. Qed.



Section Accessors.

Variable number : Type.
Variable JSON_parse : string -> option (Client.Value number).
Variable ToString : Client.Value number -> string.
Variable res : Client.IncomingMessage number.

Lemma isERROR_false (s : Client.Value number) :
  Client.isERROR s = false <-> s <> Client.VStr "ERROR".
Proof.
  destruct s; simpl; try (split; [discriminate | reflexivity]).
  rewrite String.eqb_neq. split; [congruence|].
  intros H E. apply H. now rewrite E.
Qed.

Lemma get_of_Ok (v x : Client.Value number) (key key' : string) :
  Client.get v key = Ok x -> exists y, Client.get v key' = Ok y.
Proof. destruct v; simpl; try discriminate; eauto. Qed.

End Accessors.

(** X23. [data] returns only a checked payload: it returns [d] exactly when
    the response is declared as JSON and its body parses to a payload that
    has a status whose status is not 'ERROR', [d] being the data of that
    payload ([undefined] when the payload has none). *)
Theorem data_returns_iff :
  forall (number : Type)
         (JSON_parse : string -> option (Client.Value number))
         (ToString : Client.Value number -> string)
         (res : Client.IncomingMessage number)
         (d : Client.Value number),
    Client.data JSON_parse ToString res = Ok d <->
    exists payload status s,
      Client.json JSON_parse res = Ok payload /\
      Client.get payload "status" = Ok status /\
      Client.get status "status" = Ok s /\
      s <> Client.VStr "ERROR" /\
      Client.get payload "data" = Ok d.
Proof.
  intros number JSON_parse ToString res d.
  unfold Client.data, Client.error. split.
  - destruct (Client.json JSON_parse res) as [payload|e]; [|discriminate].
    simpl.
    destruct (Client.get payload "status") as [status|e] eqn:Ep; [|discriminate].
    simpl.
    destruct (Client.get status "status") as [s|e] eqn:Es; [|discriminate].
    simpl.
    destruct (Client.isERROR s) eqn:E.
    + destruct (get_of_Ok number status s "status" "message" Es) as [m ->].
      destruct (get_of_Ok number status s "status" "error_code" Es) as [c ->].
      destruct (get_of_Ok number status s "status" "operation_id" Es) as [o ->].
      discriminate.
    + simpl. intros H. exists payload, status, s.
      apply isERROR_false in E.
      exact (conj eq_refl (conj Ep (conj Es (conj E H)))).
  - intros [payload [status [s [-> [Hs [Hss [Hne Hd]]]]]]].
    simpl. rewrite Hs. simpl. rewrite Hss. simpl.
    apply isERROR_false in Hne. rewrite Hne. simpl. exact Hd.
Qed.

Example data_returns :
  Client.data Wrapped.parse Envelope.toString Wrapped.res
  = Ok Wrapped.customer.
Proof. vm_compute. reflexivity. Qed.

(** X24. A payload without a status: when the body parses to a payload
    that has no status, or a null one, [error] and [data] throw a
    TypeError; the data of such a payload is not returned. *)
Theorem data_without_status :
  forall (number : Type)
         (JSON_parse : string -> option (Client.Value number))
         (ToString : Client.Value number -> string)
         (res : Client.IncomingMessage number)
         (payload status : Client.Value number),
    Client.json JSON_parse res = Ok payload ->
    Client.get payload "status" = Ok status ->
    status = Client.VUndefined \/ status = Client.VNull ->
    Client.error JSON_parse ToString res = Throw (Client.Native TypeError) /\
    Client.data JSON_parse ToString res = Throw (Client.Native TypeError).
Proof.
  intros number JSON_parse ToString res payload status Hj Hs Hn.
  unfold Client.data, Client.error. rewrite Hj. simpl. rewrite Hs. simpl.
  destruct Hn as [-> | ->]; split; reflexivity.
Qed.

Lemma data_without_status_witness :
  Client.error Unwrapped.parse Envelope.toString Unwrapped.res
  = Throw (Client.Native TypeError) /\
  Client.data Unwrapped.parse Envelope.toString Unwrapped.res
  = Throw (Client.Native TypeError).
Proof.
  apply (data_without_status nat Unwrapped.parse Envelope.toString
           Unwrapped.res Unwrapped.payload Client.VUndefined).
  - vm_compute. reflexivity.
  - reflexivity.
  - left. reflexivity.
Defined.

Section ErrorLists.
Import Extractor Re.

Lemma errorRe_text (c : ascii) (r : string) :
  isStar c = false -> errorRe (String c r) = None.
Proof.
  intros H. unfold errorRe, seq, lit.
  change (Str.startsWith (String c r) "**")
    with (Ascii.eqb "*" c && Str.startsWith r "*").
  unfold isStar in H. rewrite Ascii.eqb_sym in H. now rewrite H.
Qed.

Lemma span_run (p : ascii -> bool) (text rest : string) :
  noneOf (fun c => negb (p c)) text = true ->
  match rest with String c _ => p c | EmptyString => false end = false ->
  span p (text ++ rest) = (text, rest).
Proof.
  intros Ht Hr. induction text as [|c text IH].
  - destruct rest as [|c rest]; [reflexivity | simpl; now rewrite Hr].
  - simpl in Ht. apply andb_true_iff in Ht as [Hc Ht].
    rewrite negb_involutive in Hc.
    change (String c text ++ rest) with (String c (text ++ rest)).
    cbn [span]. now rewrite Hc, (IH Ht).
Qed.

Lemma errorRe_token (name description rest : string) :
  nameOK name = true ->
  noneOf isLineTerminator description = true ->
  errorRe (String "*" (("*" ++ name ++ "**" ++ nl ++ description ++ nl) ++ rest))
  = Some (EnumValue.make name description, rest).
Proof.
  intros Hn Hd. apply nameOK_inv in Hn as [Hne Hw].
  unfold errorRe, seq, lit, ret, many, many1.
  change (Str.startsWith
            (String "*" (("*" ++ name ++ "**" ++ nl ++ description ++ nl) ++ rest))
            "**") with true.
  cbv iota.
  change (Str.drop (length "**")
            (String "*" (("*" ++ name ++ "**" ++ nl ++ description ++ nl) ++ rest)))
    with ((name ++ "**" ++ nl ++ description ++ nl) ++ rest).
  rewrite append_assoc'.
  rewrite (span_word_run name (("**" ++ nl ++ description ++ nl) ++ rest) Hw eq_refl).
  destruct name as [|c name]; [congruence|].
  change (Str.startsWith (("**" ++ nl ++ description ++ nl) ++ rest) "**")
    with true.
  cbv iota.
  change (Str.drop (length "**") (("**" ++ nl ++ description ++ nl) ++ rest))
    with ((nl ++ description ++ nl) ++ rest).
  change (Str.startsWith ((nl ++ description ++ nl) ++ rest) Extract.newline) with true.
  cbv iota.
  change (Str.drop (length Extract.newline) ((nl ++ description ++ nl) ++ rest))
    with ((description ++ nl) ++ rest).
  rewrite append_assoc'.
  rewrite (span_run notLineTerminator description (nl ++ rest) Hd eq_refl).
  change (Str.startsWith (nl ++ rest) Extract.newline) with true.
  reflexivity.
Qed.

Lemma matchAll_listed (entries : list Entry) :
  entriesOK entries = true ->
  matchAll errorRe (listed entries) = codes entries.
Proof.
  induction entries as [|[text|name description] rest IH]; simpl entriesOK;
    intros H.
  - reflexivity.
  - apply andb_true_iff in H as [Ht Hr]. simpl listed.
    rewrite (matchAll_text errorRe isStar errorRe_text _ _ Ht). now apply IH.
  - apply andb_true_iff in H as [H Hr]. apply andb_true_iff in H as [Hn Hd].
    change (matchAll errorRe
              (String "*" (("*" ++ name ++ "**" ++ nl ++ description ++ nl)
                           ++ listed rest))
            = EnumValue.make name description :: codes rest).
    rewrite (matchAll_token errorRe "*"
               ("*" ++ name ++ "**" ++ nl ++ description ++ nl) (listed rest)
               (EnumValue.make name description)
               (errorRe_token name description (listed rest) Hn Hd)).
    now rewrite (IH Hr).
Qed.

End ErrorLists.

(** X25. The error codes of a list are all extracted, in order: for a body
    made of entries (a name of word characters between two pairs of stars,
    a line feed, one line of description, a line feed) and of other text
    without a star, [addErrors] pushes one enum whose values are the names
    and the descriptions of the entries, in the order of the body. *)
Theorem addErrors_lists :
  forall (fixes : Fixes) (product : string) (reference : DocNode)
         (parent : string) (references : list Ref.t) (entries : list Entry),
    fixes (slug reference) = None ->
    body reference = listed entries ->
    entriesOK entries = true ->
    Extractor.addErrors fixes product reference parent references =
    (references ++
     [Ref.make product (Some parent) (slug reference) KEnum
        (Extractor.remove (Extractor.spaceOrFinal "Errors") (title reference)
         ++ "Error")
        None None (Some (codes entries)) None None None None None None])%list.
Proof.
  intros fixes product reference parent references entries Hf Hb H.
  unfold Extractor.addErrors, Extractor.push.
  rewrite Hf, Hb, (matchAll_listed entries H). reflexivity.
Qed.

Lemma addErrors_lists_witness :
  Extractor.addErrors noFixes "collect" Pages.paymentErrors "payment-object" [] =
  ([] ++
   [Ref.make "collect" (Some "payment-object") (slug Pages.paymentErrors) KEnum
      (Extractor.remove (Extractor.spaceOrFinal "Errors")
         (title Pages.paymentErrors) ++ "Error")
      None None (Some (codes paymentEntries)) None None None None None None])%list.
Proof.
  apply (addErrors_lists noFixes "collect" Pages.paymentErrors "payment-object"
           [] paymentEntries).
  - reflexivity.
  - vm_compute. reflexivity.
  - vm_compute. reflexivity.
Defined.

Example addErrors_starred_text :
  Re.matchAll Extractor.errorRe
    ("See **below**." ++ nl ++ "**E1**" ++ nl ++ "First." ++ nl ++
     "**E2** Second." ++ nl)
  = [EnumValue.make "E1" "First."].
Proof. vm_compute. reflexivity. Qed.
